(** * update_problems.py: the [problemType] backfill migration

    The script loads a JSON document from a fixed path, gives every record
    that lacks the key [problemType] the value ['code'], writes the document
    back to the same path with [indent=4] and prints how many top-level
    entries it holds.

    The development follows the script line by line:
    - [PyStr]: Python [str] values as sequences of code points;
    - [Json]: the values [json.load] can return, and the Python operators the
      script applies to them ([in], [p[k] = v], iteration, [len]);
    - [JsonEncoder]: [json.dumps] with an indent, after CPython's
      [json.encoder];
    - [JsonDecoder]: a reference decoder for JSON text, used to run the
      script on concrete documents;
    - [script]: the script itself, over a world made of the file at
      [file_path] and the standard output, and for any decoder;
    - [script_on_bytes]: the same over the bytes of the file, which text
      mode decodes with the encoding of the locale.

    Text is made of code points throughout: the keys and strings of the
    document, the content of the file (opened in text mode) and what is
    printed. *)

From Stdlib Require Import List NArith ZArith Bool Decimal String Ascii Lia.
From Stdlib Require DecimalPos.
Import ListNotations.

(* ------------------------------------------------------------------------- *)
(** ** Python strings *)

Module PyStr.

(** A [str] is a sequence of Unicode code points. *)
Definition char := N.
Definition str := list char.

(** A string literal of the script. *)
Definition lit (s : string) : str :=
  map N_of_ascii (list_ascii_of_string s).

(** [a == b] on [str]. *)
Fixpoint str_eqb (a b : str) : bool :=
  match a, b with
  | [], [] => true
  | c :: a', d :: b' => N.eqb c d && str_eqb a' b'
  | _, _ => false
  end.

(** [hay.startswith(prefix)]. *)
Fixpoint startswith (hay prefix : str) : bool :=
  match prefix, hay with
  | [], _ => true
  | c :: prefix', d :: hay' => N.eqb c d && startswith hay' prefix'
  | _ :: _, [] => false
  end.

(** [needle in hay] for two [str]: substring test. *)
Fixpoint str_contains (hay needle : str) : bool :=
  startswith hay needle
  || match hay with
     | [] => false
     | _ :: hay' => str_contains hay' needle
     end.

(** Decimal digits, most significant first. *)
Fixpoint uint_digits (d : Decimal.uint) : str :=
  match d with
  | Nil => []
  | D0 d' => 48%N :: uint_digits d'
  | D1 d' => 49%N :: uint_digits d'
  | D2 d' => 50%N :: uint_digits d'
  | D3 d' => 51%N :: uint_digits d'
  | D4 d' => 52%N :: uint_digits d'
  | D5 d' => 53%N :: uint_digits d'
  | D6 d' => 54%N :: uint_digits d'
  | D7 d' => 55%N :: uint_digits d'
  | D8 d' => 56%N :: uint_digits d'
  | D9 d' => 57%N :: uint_digits d'
  end.

Definition minus_sign : char := 45%N.

Definition int_digits (d : Decimal.int) : str :=
  match d with
  | Pos u => uint_digits u
  | Neg u => minus_sign :: uint_digits u
  end.

(** [str(n)] for a non-negative [int] such as a length. *)
Definition str_of_nat (n : nat) : str := uint_digits (Nat.to_uint n).

(** [str(z)] for an [int]. *)
Definition str_of_int (z : Z) : str := int_digits (Z.to_int z).

Definition newline : char := 10%N.
Definition space : char := 32%N.

End PyStr.
Import PyStr.

(* ------------------------------------------------------------------------- *)
(** ** Exceptions and the evaluation of expressions *)

(** The mode a file is opened with. *)
Inductive open_mode := ModeR | ModeW.

(** The exceptions the script can die of.  Nothing in the script catches
    any of them. *)
Inductive exn :=
| OSError (mode : open_mode)   (* the [with open(file_path, mode)] block
                                  failed: [open], or the reading or the
                                  writing inside it *)
| UnicodeDecodeError           (* the bytes of the file do not decode *)
| JSONDecodeError              (* [json.load] rejects the text *)
| TypeError.                   (* an operator applied to the wrong type *)

(** An expression either raises or yields a value. *)
Definition result (A : Type) : Type := (exn + A)%type.

Definition ret {A} (a : A) : result A := inr a.
Definition raise {A} (e : exn) : result A := inl e.

Definition bind {A B} (r : result A) (k : A -> result B) : result B :=
  match r with
  | inl e => inl e
  | inr a => k a
  end.

Declare Scope result_scope.
Delimit Scope result_scope with result.
Notation "x <- e ;; k" := (bind e (fun x => k))
  (at level 61, e at next level, right associativity) : result_scope.

(** A [for] loop whose body may replace the element it is bound to: the
    elements are visited from left to right and the first exception ends
    the loop. *)
Fixpoint for_each {A B} (body : A -> result B) (xs : list A)
  : result (list B) :=
  match xs with
  | [] => ret []
  | x :: xs' =>
      (y <- body x ;;
       ys <- for_each body xs' ;;
       ret (y :: ys))%result
  end.

(* ------------------------------------------------------------------------- *)
(** ** JSON values as Python objects *)

Module Json.

(** A [float], carried as what the encoder prints for it: the script never
    looks inside a number. *)
Inductive pyfloat :=
| FNaN
| FInfinity (negative : bool)
| FRepr (numeral : Decimal.decimal).   (* [float.__repr__] of a finite float *)

(** What [json.load] can return: [None], [bool], [int], [float], [str],
    [list] and [dict] with [str] keys.  A [dict] keeps its keys in
    insertion order, which is the order [json.dump] writes them in. *)
Unset Elimination Schemes.
Inductive json :=
| JNull
| JBool (b : bool)
| JInt (n : Z)
| JFloat (f : pyfloat)
| JStr (s : str)
| JList (items : list json)
| JDict (members : list (str * json)).
Set Elimination Schemes.

(** Induction over a document: a [list] or [dict] has the property when
    all the values it holds have it. *)
Fixpoint json_ind (P : json -> Prop)
    (HNull : P JNull)
    (HBool : forall b, P (JBool b))
    (HInt : forall n, P (JInt n))
    (HFloat : forall f, P (JFloat f))
    (HStr : forall s, P (JStr s))
    (HList : forall items, Forall P items -> P (JList items))
    (HDict : forall members,
        Forall (fun kv => P (snd kv)) members -> P (JDict members))
    (o : json) {struct o} : P o :=
  let rec := json_ind P HNull HBool HInt HFloat HStr HList HDict in
  match o with
  | JNull => HNull
  | JBool b => HBool b
  | JInt n => HInt n
  | JFloat f => HFloat f
  | JStr s => HStr s
  | JList items =>
      HList items
        ((fix all (l : list json) : Forall P l :=
            match l with
            | [] => Forall_nil P
            | x :: l' => Forall_cons x (rec x) (all l')
            end) items)
  | JDict members =>
      HDict members
        ((fix all (l : list (str * json))
            : Forall (fun kv => P (snd kv)) l :=
            match l with
            | [] => Forall_nil _
            | kv :: l' => Forall_cons kv (rec (snd kv)) (all l')
            end) members)
  end.

Definition dict := list (str * json).

(** [key in d] *)
Definition dict_has (d : dict) (key : str) : bool :=
  existsb (fun kv => str_eqb key (fst kv)) d.

(** [d.get(key)] *)
Fixpoint dict_get (d : dict) (key : str) : option json :=
  match d with
  | [] => None
  | (k, v) :: d' => if str_eqb key k then Some v else dict_get d' key
  end.

(** [d[key] = value]: a key already present keeps its position, a new key
    goes last. *)
Fixpoint dict_set (d : dict) (key : str) (value : json) : dict :=
  match d with
  | [] => [(key, value)]
  | (k, v) :: d' =>
      if str_eqb key k then (k, value) :: d'
      else (k, v) :: dict_set d' key value
  end.

(** [key == x] for a [str] on the left: only a [str] equals a [str]. *)
Definition str_equals (key : str) (x : json) : bool :=
  match x with
  | JStr s => str_eqb key s
  | _ => false
  end.

(** [key in container] with a [str] key: key membership in a [dict],
    element membership in a [list], substring test in a [str]; the other
    types are not containers. *)
Definition py_in (key : str) (container : json) : result bool :=
  match container with
  | JDict members => ret (dict_has members key)
  | JList items => ret (existsb (str_equals key) items)
  | JStr s => ret (str_contains s key)
  | JNull | JBool _ | JInt _ | JFloat _ => raise TypeError
  end.

(** [p[key] = value] with a [str] key: only a [dict] takes it. *)
Definition py_setitem (p : json) (key : str) (value : json) : result json :=
  match p with
  | JDict members => ret (JDict (dict_set members key value))
  | _ => raise TypeError
  end.

(** The objects [for p in x] binds [p] to: the elements of a [list], the
    keys of a [dict], the characters of a [str]. *)
Definition py_iter (x : json) : result (list json) :=
  match x with
  | JList items => ret items
  | JDict members => ret (map (fun kv => JStr (fst kv)) members)
  | JStr s => ret (map (fun c => JStr [c]) s)
  | JNull | JBool _ | JInt _ | JFloat _ => raise TypeError
  end.

(** [len(x)] *)
Definition py_len (x : json) : result nat :=
  match x with
  | JList items => ret (List.length items)
  | JDict members => ret (List.length members)
  | JStr s => ret (List.length s)
  | JNull | JBool _ | JInt _ | JFloat _ => raise TypeError
  end.

End Json.
Import Json.

(* ------------------------------------------------------------------------- *)
(** ** The transform loop (lines 10-12) *)

Definition problemType : str := Eval cbv in lit "problemType".
Definition code : str := Eval cbv in lit "code".

(** <<
    if 'problemType' not in p:
        p['problemType'] = 'code'
    >>
    The result is [p] after the body has run. *)
Definition loop_body (p : json) : result json :=
  (present <- py_in problemType p ;;
   if negb present then py_setitem p problemType (JStr code) else ret p)%result.

(** <<
    for p in problems: ...
    >>
    The result is [problems] after the loop has run.  Over a [list], [p] is
    the element itself, so what the body does to [p] is done to the list.
    Over a [dict] or a [str], [p] is a [str]; the body either leaves it alone
    or raises, and the container is as it was. *)
Definition transform (problems : json) : result json :=
  match problems with
  | JList items =>
      (items' <- for_each loop_body items ;;
       ret (JList items'))%result
  | _ =>
      (elements <- py_iter problems ;;
       _ <- for_each loop_body elements ;;
       ret problems)%result
  end.

(* ------------------------------------------------------------------------- *)
(** ** [json.dumps(o, indent=...)]

    After CPython's [json/encoder.py]: [py_encode_basestring_ascii] for
    strings ([ensure_ascii] is on by default) and [_make_iterencode] for the
    layout.  With an indent the item separator is [","] and the key
    separator is [": "]. *)

Module JsonEncoder.

Definition quote : char := 34%N.
Definition backslash : char := 92%N.

Definition hex_digit (d : N) : char :=
  if (d <? 10)%N then (48 + d)%N else (87 + d)%N.

(** ['{0:04x}'.format(n)] for [n < 0x10000]. *)
Definition hex4 (n : N) : str :=
  [ hex_digit (N.land (N.shiftr n 12) 15);
    hex_digit (N.land (N.shiftr n 8) 15);
    hex_digit (N.land (N.shiftr n 4) 15);
    hex_digit (N.land n 15) ].

Definition unicode_escape (n : N) : str := lit "\u" ++ hex4 n.

(** One character of a string: [ESCAPE_DCT] first, then anything outside
    [' '..'~'] as a [\uXXXX] escape, a surrogate pair above the BMP. *)
Definition escape_char (c : char) : str :=
  if (c =? 92)%N then lit "\\"
  else if (c =? 34)%N then [backslash; quote]
  else if (c =? 8)%N then lit "\b"
  else if (c =? 12)%N then lit "\f"
  else if (c =? 10)%N then lit "\n"
  else if (c =? 13)%N then lit "\r"
  else if (c =? 9)%N then lit "\t"
  else if ((32 <=? c) && (c <=? 126))%N then [c]
  else if (c <? 65536)%N then unicode_escape c
  else
    let n := (c - 65536)%N in
    unicode_escape (N.lor 55296 (N.land (N.shiftr n 10) 1023))
    ++ unicode_escape (N.lor 56320 (N.land n 1023)).

Definition encode_basestring_ascii (s : str) : str :=
  quote :: flat_map escape_char s ++ [quote].

Definition fraction (f : Decimal.uint) : str :=
  match f with
  | Nil => []
  | _ => lit "." ++ uint_digits f
  end.

Definition exponent (e : Decimal.int) : str :=
  match e with
  | Pos u => lit "e+" ++ uint_digits u
  | Neg u => lit "e-" ++ uint_digits u
  end.

(** [floatstr]: the three names JavaScript has for the non-finite floats,
    [float.__repr__] for the others. *)
Definition floatstr (f : pyfloat) : str :=
  match f with
  | FNaN => lit "NaN"
  | FInfinity false => lit "Infinity"
  | FInfinity true => lit "-Infinity"
  | FRepr (Decimal i f) => int_digits i ++ fraction f
  | FRepr (DecimalExp i f e) => int_digits i ++ fraction f ++ exponent e
  end.

(** ['\n' + ' ' * indent * level] *)
Definition newline_indent (indent level : nat) : str :=
  newline :: repeat space (indent * level).

(** [sep.join(chunks)] *)
Fixpoint join (sep : str) (chunks : list str) : str :=
  match chunks with
  | [] => []
  | c :: rest =>
      match rest with
      | [] => c
      | _ :: _ => c ++ sep ++ join sep rest
      end
  end.

(** The text of [o] when it sits [level] containers deep. *)
Fixpoint encode (indent level : nat) (o : json) : str :=
  match o with
  | JNull => lit "null"
  | JBool true => lit "true"
  | JBool false => lit "false"
  | JInt n => str_of_int n
  | JFloat f => floatstr f
  | JStr s => encode_basestring_ascii s
  | JList [] => lit "[]"
  | JList items =>
      lit "["
      ++ newline_indent indent (S level)
      ++ join (lit "," ++ newline_indent indent (S level))
           (map (encode indent (S level)) items)
      ++ newline_indent indent level
      ++ lit "]"
  | JDict [] => lit "{}"
  | JDict members =>
      lit "{"
      ++ newline_indent indent (S level)
      ++ join (lit "," ++ newline_indent indent (S level))
           (map (fun kv =>
                   encode_basestring_ascii (fst kv)
                   ++ lit ": "
                   ++ encode indent (S level) (snd kv))
              members)
      ++ newline_indent indent level
      ++ lit "}"
  end.

Definition json_dumps (indent : nat) (o : json) : str := encode indent 0 o.

End JsonEncoder.
Import JsonEncoder.

(* ------------------------------------------------------------------------- *)
(** ** A reference decoder for JSON text

    [json.loads] belongs to Python's library, not to the script, and the
    script is modelled over any decoder (section [Script] below).  This one
    follows [json/decoder.py] and [json/scanner.py] and serves to run the
    script on concrete documents.  Like [JSONDecoder] it takes the
    conversion of a fractional literal as a hook, [parse_float], which in
    Python defaults to [float]. *)

Module JsonDecoder.

Definition is_char (a : ascii) (c : char) : bool := N.eqb c (N_of_ascii a).

Definition is_digit (c : char) : bool := ((48 <=? c) && (c <=? 57))%N.

(** [WHITESPACE]: space, tab, line feed and carriage return. *)
Definition is_whitespace (c : char) : bool :=
  N.eqb c 32 || N.eqb c 9 || N.eqb c 10 || N.eqb c 13.

Fixpoint skip_whitespace (s : str) : str :=
  match s with
  | c :: s' => if is_whitespace c then skip_whitespace s' else s
  | [] => []
  end.

(** The longest run of digits [s] starts with, and what follows it. *)
Fixpoint span_digits (s : str) : str * str :=
  match s with
  | c :: s' =>
      if is_digit c
      then let (ds, rest) := span_digits s' in (c :: ds, rest)
      else ([], s)
  | [] => ([], [])
  end.

(** The number a run of digits writes. *)
Definition digits_value (ds : str) : Z :=
  fold_left (fun acc c => (10 * acc + (Z.of_N c - 48))%Z) ds 0%Z.

(** The default of [sys.set_int_max_str_digits]: an [int] of more decimal
    digits is neither printed nor parsed. *)
Definition int_max_str_digits : nat := 4300.

(** The digits of a literal, its sign apart. *)
Definition digit_count (lexeme : str) : nat :=
  List.length (filter is_digit lexeme).

(** [int(lexeme)] for an optional minus sign and digits. *)
Definition parse_int (lexeme : str) : Z :=
  match lexeme with
  | c :: ds => if is_char "-" c then (- digits_value ds)%Z
               else digits_value lexeme
  | [] => 0%Z
  end.

(** The three groups of [NUMBER_RE].  First the integer: an optional
    minus sign, then a single zero or a digit from one to nine followed
    by any digits. *)
Definition match_integer (s : str) : option (str * str) :=
  let (sign, s1) :=
    match s with
    | c :: s' => if is_char "-" c then ([c], s') else ([], s)
    | [] => ([], s)
    end in
  match s1 with
  | c :: s2 =>
      if is_char "0" c then Some (sign ++ [c], s2)
      else if is_digit c
      then let (ds, rest) := span_digits s2 in Some (sign ++ c :: ds, rest)
      else None
  | [] => None
  end.

(** The fraction: a dot and at least one digit, or nothing. *)
Definition match_fraction (s : str) : str * str :=
  match s with
  | c :: s1 =>
      if is_char "." c then
        match span_digits s1 with
        | ([], _) => ([], s)
        | (ds, rest) => (c :: ds, rest)
        end
      else ([], s)
  | [] => ([], s)
  end.

(** The exponent: [e] or [E], an optional sign and at least one digit,
    or nothing. *)
Definition match_exponent (s : str) : str * str :=
  match s with
  | c :: s1 =>
      if is_char "e" c || is_char "E" c then
        let (sign, s2) :=
          match s1 with
          | d :: s' =>
              if is_char "-" d || is_char "+" d then ([d], s') else ([], s1)
          | [] => ([], s1)
          end in
        match span_digits s2 with
        | ([], _) => ([], s)
        | (ds, rest) => (c :: sign ++ ds, rest)
        end
      else ([], s)
  | [] => ([], s)
  end.

Definition hex_value (c : char) : option N :=
  if is_digit c then Some (c - 48)%N
  else if ((97 <=? c) && (c <=? 102))%N then Some (c - 87)%N
  else if ((65 <=? c) && (c <=? 70))%N then Some (c - 55)%N
  else None.

(** [_decode_uXXXX]: four hexadecimal digits. *)
Definition decode_uXXXX (s : str) : option (N * str) :=
  match s with
  | a :: b :: c :: d :: rest =>
      match hex_value a, hex_value b, hex_value c, hex_value d with
      | Some x, Some y, Some z, Some w =>
          Some (((x * 16 + y) * 16 + z) * 16 + w, rest)%N
      | _, _, _, _ => None
      end
  | _ => None
  end.

(** [BACKSLASH]: the one-letter escapes. *)
Definition BACKSLASH (c : char) : option char :=
  if N.eqb c quote then Some quote
  else if is_char "\" c then Some backslash
  else if is_char "/" c then Some 47%N
  else if is_char "b" c then Some 8%N
  else if is_char "f" c then Some 12%N
  else if is_char "n" c then Some 10%N
  else if is_char "r" c then Some 13%N
  else if is_char "t" c then Some 9%N
  else None.

Definition is_high_surrogate (n : N) : bool :=
  ((55296 <=? n) && (n <=? 56319))%N.
Definition is_low_surrogate (n : N) : bool :=
  ((56320 <=? n) && (n <=? 57343))%N.

(** A low surrogate written as an escape right after a high one. *)
Definition low_surrogate_escape (s : str) : option (N * str) :=
  match s with
  | b :: u :: s' =>
      if is_char "\" b && is_char "u" u then
        match decode_uXXXX s' with
        | Some (uni2, rest) =>
            if is_low_surrogate uni2 then Some (uni2, rest) else None
        | None => None
        end
      else None
  | _ => None
  end.

Definition prepend {A} (c : char) (r : option (str * A)) : option (str * A) :=
  match r with
  | Some (s, rest) => Some (c :: s, rest)
  | None => None
  end.

(** [py_scanstring] with [strict=True], from just after the opening
    quote: the string and the text after its closing quote.  [k] bounds
    the number of characters. *)
Fixpoint scanstring (k : nat) (s : str) : option (str * str) :=
  match k with
  | O => None
  | S k' =>
      match s with
      | [] => None
      | c :: s1 =>
          if N.eqb c quote then Some ([], s1)
          else if is_char "\" c then
            match s1 with
            | [] => None
            | esc :: s2 =>
                if is_char "u" esc then
                  match decode_uXXXX s2 with
                  | None => None
                  | Some (uni, s3) =>
                      match
                        (if is_high_surrogate uni
                         then low_surrogate_escape s3 else None)
                      with
                      | Some (uni2, s4) =>
                          prepend
                            (65536 + N.lor (N.shiftl (uni - 55296) 10)
                                           (uni2 - 56320))%N
                            (scanstring k' s4)
                      | None => prepend uni (scanstring k' s3)
                      end
                  end
                else
                  match BACKSLASH esc with
                  | Some c' => prepend c' (scanstring k' s2)
                  | None => None
                  end
            end
          else if (c <? 32)%N then None
          else prepend c (scanstring k' s1)
      end
  end.

Section Scanner.

(** The hook for fractional literals ([float] in Python). *)
Variable parse_float : str -> pyfloat.

(** A number.  Without fraction and exponent it is [int(integer)], which
    raises [ValueError] on a literal beyond the digit limit: [None]. *)
Definition scan_number (s : str) : option (json * str) :=
  match match_integer s with
  | None => None
  | Some (integer, s1) =>
      let (frac, s2) := match_fraction s1 in
      let (exp, s3) := match_exponent s2 in
      match frac, exp with
      | [], [] =>
          if Nat.leb (digit_count integer) int_max_str_digits
          then Some (JInt (parse_int integer), s3)
          else None
      | _, _ => Some (JFloat (parse_float (integer ++ frac ++ exp)), s3)
      end
  end.

(** [s] starts with the literal [word]: [value] and the rest. *)
Definition scan_literal (word : str) (value : json) (s : str)
  : option (json * str) :=
  if startswith s word then Some (value, skipn (List.length word) s)
  else None.

Section Containers.

(** [scan_once] for the values inside the container. *)
Variable scan : str -> option (json * str).

(** The values of an array from the first one on, to the closing
    bracket.  [k] bounds their number. *)
Fixpoint array_values (k : nat) (s : str) : option (list json * str) :=
  match k with
  | O => None
  | S k' =>
      match scan s with
      | None => None
      | Some (value, s1) =>
          match skip_whitespace s1 with
          | c :: s2 =>
              if is_char "]" c then Some ([value], s2)
              else if is_char "," c then
                match array_values k' (skip_whitespace s2) with
                | Some (values, rest) => Some (value :: values, rest)
                | None => None
                end
              else None
          | [] => None
          end
      end
  end.

(** [JSONArray], from just after the opening bracket. *)
Definition JSONArray (s : str) : option (json * str) :=
  match skip_whitespace s with
  | c :: s1 =>
      if is_char "]" c then Some (JList [], s1)
      else
        match array_values (List.length s) (c :: s1) with
        | Some (values, rest) => Some (JList values, rest)
        | None => None
        end
  | [] => None
  end.

(** The pairs of an object from the first key on, to the closing
    brace.  [k] bounds their number. *)
Fixpoint object_pairs (k : nat) (s : str)
  : option (list (str * json) * str) :=
  match k with
  | O => None
  | S k' =>
      match s with
      | q :: s0 =>
          if N.eqb q quote then
            match scanstring (List.length s0) s0 with
            | None => None
            | Some (key, s1) =>
                match skip_whitespace s1 with
                | colon :: s2 =>
                    if is_char ":" colon then
                      match scan (skip_whitespace s2) with
                      | None => None
                      | Some (value, s3) =>
                          match skip_whitespace s3 with
                          | c :: s4 =>
                              if is_char "}" c
                              then Some ([(key, value)], s4)
                              else if is_char "," c then
                                match
                                  object_pairs k' (skip_whitespace s4)
                                with
                                | Some (pairs, rest) =>
                                    Some ((key, value) :: pairs, rest)
                                | None => None
                                end
                              else None
                          | [] => None
                          end
                      end
                    else None
                | [] => None
                end
            end
          else None
      | [] => None
      end
  end.

(** [dict(pairs)]: a repeated key keeps its first position and its
    last value. *)
Definition dict_of_pairs (pairs : list (str * json)) : dict :=
  fold_left (fun d kv => dict_set d (fst kv) (snd kv)) pairs [].

(** [JSONObject], from just after the opening brace. *)
Definition JSONObject (s : str) : option (json * str) :=
  match skip_whitespace s with
  | c :: s1 =>
      if is_char "}" c then Some (JDict [], s1)
      else
        match object_pairs (List.length s) (c :: s1) with
        | Some (pairs, rest) => Some (JDict (dict_of_pairs pairs), rest)
        | None => None
        end
  | [] => None
  end.

End Containers.

(** [scan_once]: one value at the head of [s].  [depth] bounds the
    nesting. *)
Fixpoint scan_once (depth : nat) (s : str) : option (json * str) :=
  match depth with
  | O => None
  | S depth' =>
      match s with
      | [] => None
      | c :: s1 =>
          if N.eqb c quote then
            match scanstring (List.length s1) s1 with
            | Some (text, rest) => Some (JStr text, rest)
            | None => None
            end
          else if is_char "{" c then JSONObject (scan_once depth') s1
          else if is_char "[" c then JSONArray (scan_once depth') s1
          else if startswith s (lit "null") then
            scan_literal (lit "null") JNull s
          else if startswith s (lit "true") then
            scan_literal (lit "true") (JBool true) s
          else if startswith s (lit "false") then
            scan_literal (lit "false") (JBool false) s
          else
            match scan_number s with
            | Some r => Some r
            | None =>
                if startswith s (lit "NaN") then
                  scan_literal (lit "NaN") (JFloat FNaN) s
                else if startswith s (lit "Infinity") then
                  scan_literal (lit "Infinity")
                    (JFloat (FInfinity false)) s
                else
                  scan_literal (lit "-Infinity")
                    (JFloat (FInfinity true)) s
            end
      end
  end.

(** [json.loads]: one value, whitespace allowed around it and nothing
    else; [None] stands for the [ValueError] the decoder raises, that is
    [JSONDecodeError] or the error of an integer literal beyond the digit
    limit.  The recursion limit of the interpreter is not modelled: on a
    text nested deep enough to exhaust it [json.loads] raises
    [RecursionError]. *)
Definition json_loads (s : str) : option json :=
  if startswith s [65279%N] then None
  else
    match scan_once (S (List.length s)) (skip_whitespace s) with
    | Some (value, rest) =>
        match skip_whitespace rest with
        | [] => Some value
        | _ :: _ => None
        end
    | None => None
    end.

End Scanner.

(** The documents below hold no fractional number, so the hook is never
    called on them. *)
Definition no_fraction (lexeme : str) : pyfloat := FNaN.

(** JSON text written with ['] for the double quote. *)
Definition text (s : string) : str :=
  map (fun c => if is_char "'" c then quote else c) (lit s).

End JsonDecoder.
Import JsonDecoder.

(* ------------------------------------------------------------------------- *)
(** ** The world of the script and its commands *)

(** What a run can observe and change: the file at [file_path] and the
    standard output.  [file] is the text that reading the file in text mode
    gives, or [None] when it cannot be read (no such file, no permission, a
    failing device).  [writable] tells whether the file can be written: the
    [open(file_path, 'w')] succeeds and so does all the writing, up to the
    closing of the file.  When it cannot, [cut] tells how the attempt ends:
    [None] when [open] itself fails, and nothing is touched; [Some n] when
    [open] succeeds, which empties the file, and the writing is interrupted
    (a full disk, a failing device) with the first [n] characters of the
    new text on disk.  [stdout] is what has been printed so far. *)
Record world := {
  file : option str;
  writable : bool;
  cut : option nat;
  stdout : str
}.

(** A command runs in a world, leaves a world, and raises or yields. *)
Definition IO (A : Type) : Type := world -> result A * world.

Definition io_bind {A B} (c : IO A) (k : A -> IO B) : IO B :=
  fun w =>
    match c w with
    | (inl e, w') => (inl e, w')
    | (inr a, w') => k a w'
    end.

(** The value of an expression, inside a command. *)
Definition eval {A} (r : result A) : IO A := fun w => (r, w).

Declare Scope io_scope.
Delimit Scope io_scope with io.
Notation "x <- e ;; k" := (io_bind e (fun x => k))
  (at level 61, e at next level, right associativity) : io_scope.

(** <<
    with open(file_path, 'r') as f: ... f.read()
    >> *)
Definition read_file : IO str :=
  fun w =>
    match file w with
    | Some content => (ret content, w)
    | None => (raise (OSError ModeR), w)
    end.

(** <<
    with open(file_path, 'w') as f: f.write(content)
    >>
    Mode ['w'] truncates: once the file is open, what was in it is gone.
    When all goes well [content] is all there is; when the writing is
    interrupted the file holds the part that was written, and [OSError]
    reaches the caller. *)
Definition write_file (content : str) : IO unit :=
  fun w =>
    if writable w
    then (ret tt, {| file := Some content;
                     writable := writable w;
                     cut := cut w;
                     stdout := stdout w |})
    else
      match cut w with
      | None => (raise (OSError ModeW), w)
      | Some n => (raise (OSError ModeW),
                   {| file := Some (firstn n content);
                      writable := writable w;
                      cut := cut w;
                      stdout := stdout w |})
      end.

(** [print(line)] *)
Definition print (line : str) : IO unit :=
  fun w =>
    (ret tt, {| file := file w;
                writable := writable w;
                cut := cut w;
                stdout := stdout w ++ line ++ [newline] |}).

(* ------------------------------------------------------------------------- *)
(** ** The script *)

Section Script.

(** [json.loads], [None] standing for [JSONDecodeError]. *)
Variable json_load : str -> option json.

Definition load (content : str) : result json :=
  match json_load content with
  | Some o => ret o
  | None => raise JSONDecodeError
  end.

(** [f"Updated {n} problems."] *)
Definition report (n : nat) : str :=
  lit "Updated " ++ str_of_nat n ++ lit " problems.".

(** <<
    with open(file_path, 'r') as f:
        problems = json.load(f)

    for p in problems:
        if 'problemType' not in p:
            p['problemType'] = 'code'

    with open(file_path, 'w') as f:
        json.dump(problems, f, indent=4)

    print(f"Updated {len(problems)} problems.")
    >> *)
Definition script : IO unit :=
  (content <- read_file ;;
   problems <- eval (load content) ;;
   problems <- eval (transform problems) ;;
   _ <- write_file (json_dumps 4 problems) ;;
   n <- eval (py_len problems) ;;
   print (report n))%io.

End Script.

(* ------------------------------------------------------------------------- *)
(** ** The file as bytes

    [open(file_path, 'r')] is called without [encoding]: in text mode the
    bytes of the file are decoded with the encoding of the locale of the
    process, and every line ending is read as a line feed.  For
    [script_on_bytes] the [file] of a world holds the bytes of the file; a
    byte is a number below 256. *)

Definition bytes : Type := list N.

(** Universal newlines, the default of text mode: a carriage return, alone
    or followed by a line feed, is read as a line feed. *)
Fixpoint universal_newlines (s : str) : str :=
  match s with
  | [] => []
  | c :: s' =>
      if N.eqb c 13 then
        newline :: match s' with
                   | d :: s'' =>
                       if N.eqb d 10 then universal_newlines s''
                       else universal_newlines s'
                   | [] => []
                   end
      else c :: universal_newlines s'
  end.

(** A continuation byte of UTF-8, [10xxxxxx]. *)
Definition is_continuation (b : N) : bool := (128 <=? b)%N && (b <? 192)%N.

Definition decoded (c : N) (rest : option str) : option str :=
  match rest with
  | Some s => Some (c :: s)
  | None => None
  end.

(** The [utf-8] codec with [errors='strict']: shortest forms only, no
    surrogate, nothing above U+10FFFF; [None] stands for
    [UnicodeDecodeError]. *)
Fixpoint utf_8 (raw : bytes) : option str :=
  match raw with
  | [] => Some []
  | b0 :: r0 =>
      if (b0 <? 128)%N then decoded b0 (utf_8 r0)
      else if (b0 <? 194)%N then None
      else if (b0 <? 224)%N then
        match r0 with
        | b1 :: r1 =>
            if is_continuation b1
            then decoded ((b0 - 192) * 64 + (b1 - 128)) (utf_8 r1)
            else None
        | _ => None
        end
      else if (b0 <? 240)%N then
        match r0 with
        | b1 :: b2 :: r2 =>
            if is_continuation b1 && is_continuation b2
               && negb (N.eqb b0 224 && (b1 <? 160)%N)
               && negb (N.eqb b0 237 && (160 <=? b1)%N)
            then decoded ((b0 - 224) * 4096 + (b1 - 128) * 64 + (b2 - 128))
                   (utf_8 r2)
            else None
        | _ => None
        end
      else if (b0 <? 245)%N then
        match r0 with
        | b1 :: b2 :: b3 :: r3 =>
            if is_continuation b1 && is_continuation b2
               && is_continuation b3
               && negb (N.eqb b0 240 && (b1 <? 144)%N)
               && negb (N.eqb b0 244 && (144 <=? b1)%N)
            then decoded ((b0 - 240) * 262144 + (b1 - 128) * 4096
                          + (b2 - 128) * 64 + (b3 - 128))
                   (utf_8 r3)
            else None
        | _ => None
        end
      else None
  end.

(** The [latin-1] codec: every byte is the code point of its value. *)
Definition latin_1 (raw : bytes) : option str :=
  if forallb (fun b => (b <? 256)%N) raw then Some raw else None.

Section Bytes.

Variable json_load : str -> option json.

(** The codec of the locale's encoding. *)
Variable decode : bytes -> option str.

(** The script in a world whose [file] holds the bytes of the file.  The
    text the script works on is the bytes decoded; what it writes is plain
    ASCII, which the encodings of locales write byte for byte (and a POSIX
    system writes a line feed as it is).  A run that did not get to write
    leaves the bytes as they were. *)
Definition script_on_bytes : IO unit :=
  fun w =>
    match file w with
    | None => (raise (OSError ModeR), w)
    | Some raw =>
        match decode raw with
        | None => (raise UnicodeDecodeError, w)
        | Some content =>
            match
              script json_load
                {| file := Some (universal_newlines content);
                   writable := writable w;
                   cut := cut w;
                   stdout := stdout w |}
            with
            | (inr done, w') => (inr done, w')
            | (inl e, w') =>
                (inl e,
                 match e, cut w with
                 | OSError ModeW, Some _ => w'
                 | _, _ => w
                 end)
            end
        end
    end.

End Bytes.

(* ------------------------------------------------------------------------- *)
(** ** Vocabulary of the statements *)

(** A record collection as the script sees it: a [list] of [dict]. *)
Definition collection (records : list dict) : json :=
  JList (map JDict records).

(** The fields of a record other than [problemType], in their order. *)
Definition other_fields (r : dict) : dict :=
  filter (fun kv => negb (str_eqb problemType (fst kv))) r.

(** The number of spaces [s] starts with. *)
Fixpoint count_spaces (s : str) : nat :=
  match s with
  | c :: s' => if N.eqb c space then S (count_spaces s') else 0
  | [] => 0
  end.

(** The indentation of every line of [s] but the first: for each line
    break, the number of spaces that follow it. *)
Fixpoint indents (s : str) : list nat :=
  match s with
  | c :: s' =>
      if N.eqb c newline then count_spaces s' :: indents s' else indents s'
  | [] => []
  end.

(** From one line to the next the indentation stays, or grows or shrinks
    by exactly [indent]. *)
Definition step (indent a b : nat) : Prop :=
  b = a \/ b = a + indent \/ a = b + indent.

(** [path] goes from [a] to [b] by such steps. *)
Fixpoint walk (indent a : nat) (path : list nat) (b : nat) : Prop :=
  match path with
  | [] => a = b
  | n :: path' => step indent a n /\ walk indent n path' b
  end.

(** [s] does not start with a space. *)
Definition solid (s : str) : Prop := count_spaces s = 0.

(** The first scenario of the specification:
    [[{"id": 1}, {"id": 2, "problemType": "quiz"}]]. *)
Definition record_1 : dict := [(lit "id", JInt 1)].
Definition record_2 : dict :=
  [(lit "id", JInt 2); (problemType, JStr (lit "quiz"))].
Definition two_records : list dict := [record_1; record_2].

(** The same scenario as the text of the file, and three documents that
    are not collections of records. *)
Definition scenario_1 : str :=
  text "[{'id': 1}, {'id': 2, 'problemType': 'quiz'}]".
Definition not_json : str := text "[{'id': 1},".
Definition empty_object : str := text "{}".
Definition a_number : str := text "5".

(** A world where the file holds [content] and can be written, before
    anything is printed. *)
Definition world_of (content : str) : world :=
  {| file := Some content; writable := true; cut := None; stdout := [] |}.

(** The reference decoder, as used on these documents. *)
Definition reference_load : str -> option json := json_loads no_fraction.

(** The first scenario once the loop has run. *)
Definition two_records_done : list dict :=
  [record_1 ++ [(problemType, JStr code)]; record_2].

(** The same world after something else was printed. *)
Definition world_later (content : str) : world :=
  {| file := Some content; writable := true; cut := None;
     stdout := lit "earlier" |}.

(** The keys of a record, in their order. *)
Definition keys (r : dict) : list str := map fst r.

(** What the loop body comes to on a record, written as a function: the
    record itself when it has the key, the record with the default as its
    last field when not. *)
Definition set_default (r : dict) : dict :=
  if dict_has r problemType then r
  else r ++ [(problemType, JStr code)].

(** The objects the loop body gets through without raising: any [dict], a
    [list] that holds the string ['problemType'], a [str] that contains
    it. *)
Definition accepts (p : json) : bool :=
  match p with
  | JDict _ => true
  | JList items => existsb (str_equals problemType) items
  | JStr s => str_contains s problemType
  | JNull | JBool _ | JInt _ | JFloat _ => false
  end.

(** The documents the loop gets through: the iterable ones whose elements
    are all accepted. *)
Definition loop_accepts (problems : json) : bool :=
  match py_iter problems with
  | inr elements => forallb accepts elements
  | inl _ => false
  end.

Definition is_dict (p : json) : bool :=
  match p with
  | JDict _ => true
  | _ => false
  end.

(** [s] with [n] more spaces at the start of every line but the first. *)
Fixpoint shift (n : nat) (s : str) : str :=
  match s with
  | c :: s' =>
      if N.eqb c newline then c :: repeat space n ++ shift n s'
      else c :: shift n s'
  | [] => []
  end.

(** The characters of plain ASCII text: the line feed and the printable
    ones, from the space to the tilde. *)
Definition plain_ascii (c : char) : bool :=
  N.eqb c newline || ((32 <=? c) && (c <=? 126))%N.

(** [s] is plain ASCII text. *)
Definition all_plain (s : str) : Prop :=
  Forall (fun c => plain_ascii c = true) s.

(** A collection with a record that is not one and a string the loop lets
    through, and a world where the file cannot be written. *)
Definition mixed_items : list json :=
  [JDict record_1; JStr (lit "my problemType"); JList [JStr problemType]].
Definition mixed_items_done : list json :=
  [JDict (record_1 ++ [(problemType, JStr code)]);
   JStr (lit "my problemType"); JList [JStr problemType]].
Definition read_only_world (content : str) : world :=
  {| file := Some content; writable := false; cut := None; stdout := [] |}.

(** The two halves of the surrogate pair the encoder writes for a code
    point above the BMP. *)
Definition hi_of (c : N) : N :=
  N.lor 55296 (N.land (N.shiftr (c - 65536) 10) 1023).
Definition lo_of (c : N) : N := N.lor 56320 (N.land (c - 65536) 1023).

(** Text that comes back from its escaped form: code points in Unicode's
    range, and no high surrogate directly followed by a low one, which the
    decoder would read as one character. *)
Fixpoint text_ok (s : str) : bool :=
  match s with
  | [] => true
  | c :: s' =>
      (c <? 1114112)%N
      && negb (is_high_surrogate c
               && match s' with
                  | d :: _ => is_low_surrogate d
                  | [] => false
                  end)
      && text_ok s'
  end.

(** What can follow a value in the text of a container or at the end. *)
Definition stops (rest : str) : bool :=
  match rest with
  | [] => true
  | c :: _ => N.eqb c 44 || N.eqb c 10
  end.

(** A character a value can start with: no whitespace, no closing bracket,
    plain ASCII. *)
Definition value_head (c : char) : bool :=
  negb (is_whitespace c) && negb (is_char "]" c) && (c <? 128)%N.

(** Keys that are readable texts, each different from the ones after it. *)
Fixpoint text_ok_keys (members : list (str * json)) : bool :=
  match members with
  | [] => true
  | (k, _) :: rest => text_ok k && negb (dict_has rest k) && text_ok_keys rest
  end.

(** An [int] within the digit limit. *)
Definition int_ok (z : Z) : bool :=
  Nat.leb (List.length (str_of_int (Z.abs z))) int_max_str_digits.

(** The documents whose text is read back as they are: no finite [float]
    ([parse_float] is left open), every [int] within the digit limit,
    readable strings and keys, keys distinct within each [dict]. *)
Fixpoint readable (o : json) : bool :=
  match o with
  | JNull | JBool _ => true
  | JInt z => int_ok z
  | JFloat (FRepr _) => false
  | JFloat _ => true
  | JStr s => text_ok s
  | JList items => forallb readable items
  | JDict members =>
      text_ok_keys members && forallb (fun kv => readable (snd kv)) members
  end.

(** No key of the [dict] comes twice. *)
Fixpoint no_repeat (members : list (str * json)) : bool :=
  match members with
  | [] => true
  | (k, _) :: rest => negb (dict_has rest k) && no_repeat rest
  end.

(** No [dict] of the document, at any depth, has a key twice. *)
Fixpoint well_keyed (o : json) : bool :=
  match o with
  | JList items => forallb well_keyed items
  | JDict members =>
      no_repeat members && forallb (fun kv => well_keyed (snd kv)) members
  | _ => true
  end.

(** A text in which an object gives the key ['a'] twice. *)
Definition repeated_key : str := text "[{'a': 1, 'b': {}, 'a': 2}]".

(** The bytes of [[{"name": "e"}]] with the [e] accented, as UTF-8 has
    it: the two bytes [C3 A9]. *)
Definition accented : bytes :=
  lit "[{" ++ [quote] ++ lit "name" ++ [quote] ++ lit ": "
  ++ [quote; 195; 169; quote]%N ++ lit "}]".

(** A world where the writing is interrupted after [n] characters. *)
Definition failing_world (content : str) (n : nat) : world :=
  {| file := Some content; writable := false; cut := Some n; stdout := [] |}.

(** A string of two characters, a high surrogate and a low one. *)
Definition surrogates : str := [55357%N; 56832%N].

(** [scan] reads back an item of a container that sits at [level]: from the
    item's text, whatever stops it, and the text starts like a value. *)
Definition reads_back (scan : str -> option (json * str))
    (indent level : nat) (o : json) : Prop :=
  (forall r, stops r = true ->
             scan (encode indent (S level) o ++ r) = Some (o, r))
  /\ exists c t, encode indent (S level) o = c :: t /\ value_head c = true.

(* ------------------------------------------------------------------------- *)
(** ** Strings and dictionaries *)

Lemma str_eqb_refl (a : str) : str_eqb a a = true.
Proof.
  induction a as [|c a IH]; simpl; [reflexivity|].
  now rewrite N.eqb_refl, IH.
Qed.

Lemma str_eqb_eq (a b : str) : str_eqb a b = true <-> a = b.
Proof.
  split.
  - revert b; induction a as [|c a IH]; intros [|d b] H; simpl in H;
      try discriminate; [reflexivity|].
    apply andb_true_iff in H as [Hc Ha].
    apply N.eqb_eq in Hc. apply IH in Ha. now subst.
  - intros ->. apply str_eqb_refl.
Qed.

Lemma str_eqb_neq (a b : str) : str_eqb a b = false <-> a <> b.
Proof.
  rewrite <- str_eqb_eq. destruct (str_eqb a b); split; congruence.
Qed.

Lemma dict_has_get (d : dict) (key : str) :
  dict_has d key = true <-> exists v, dict_get d key = Some v.
Proof.
  induction d as [|[k v] d IH]; simpl.
  - split; [discriminate | intros [v H]; discriminate].
  - destruct (str_eqb key k); simpl; [|exact IH].
    split; [eauto | reflexivity].
Qed.

Lemma dict_has_false_get (d : dict) (key : str) :
  dict_has d key = false <-> dict_get d key = None.
Proof.
  induction d as [|[k v] d IH]; simpl; [tauto|].
  destruct (str_eqb key k); simpl; [|exact IH].
  split; discriminate.
Qed.

(** A key that is not there goes last, and nothing else moves. *)
Lemma dict_set_fresh (d : dict) (key : str) (value : json) :
  dict_has d key = false -> dict_set d key value = d ++ [(key, value)].
Proof.
  induction d as [|[k v] d IH]; simpl; [reflexivity|].
  destruct (str_eqb key k); simpl; [discriminate|].
  intros H. now rewrite IH.
Qed.

Lemma dict_get_app_fresh (d : dict) (key k : str) (value : json) :
  dict_get (d ++ [(key, value)]) k =
  match dict_get d k with
  | Some v => Some v
  | None => if str_eqb k key then Some value else None
  end.
Proof.
  induction d as [|[k' v'] d IH]; simpl; [reflexivity|].
  destruct (str_eqb k k'); [reflexivity | exact IH].
Qed.

Lemma other_fields_app_problemType (d : dict) (value : json) :
  other_fields (d ++ [(problemType, value)]) = other_fields d.
Proof.
  unfold other_fields. rewrite filter_app. cbn [filter fst].
  rewrite str_eqb_refl. cbn. apply app_nil_r.
Qed.

(** Looking up another key only looks at the other fields. *)
Lemma dict_get_other_fields (d : dict) (k : str) :
  k <> problemType -> dict_get (other_fields d) k = dict_get d k.
Proof.
  intros Hk. induction d as [|[k' v'] d IH]; [reflexivity|].
  unfold other_fields in *. cbn [filter fst].
  destruct (str_eqb problemType k') eqn:E; cbn [negb dict_get].
  - apply str_eqb_eq in E. subst k'.
    apply str_eqb_neq in Hk. rewrite Hk. exact IH.
  - destruct (str_eqb k k'); [reflexivity | exact IH].
Qed.

(* ------------------------------------------------------------------------- *)
(** ** One pass of the loop body *)

(** On a record the body never raises: it is the record itself when the key
    is there, and the record with [problemType: 'code'] appended when not. *)
Lemma loop_body_has (r : dict) :
  dict_has r problemType = true -> loop_body (JDict r) = ret (JDict r).
Proof.
  intros H. unfold loop_body. simpl. now rewrite H.
Qed.

Lemma loop_body_lacks (r : dict) :
  dict_has r problemType = false ->
  loop_body (JDict r) = ret (JDict (r ++ [(problemType, JStr code)])).
Proof.
  intros H. unfold loop_body. cbn [py_in bind ret].
  rewrite H. cbn [negb py_setitem]. now rewrite dict_set_fresh.
Qed.

Lemma loop_body_record (r : dict) :
  exists r', loop_body (JDict r) = ret (JDict r').
Proof.
  destruct (dict_has r problemType) eqn:E.
  - exists r. now apply loop_body_has.
  - eexists. now apply loop_body_lacks.
Qed.

(** Whatever the body returns has the key, in the sense of [in]. *)
Lemma loop_body_present (p p' : json) :
  loop_body p = ret p' -> py_in problemType p' = ret true.
Proof.
  unfold loop_body.
  destruct p as [| b | n | f | s | items | members]; cbn [py_in bind ret raise];
    try discriminate.
  - destruct (str_contains s problemType) eqn:E; cbn [negb py_setitem];
      [|discriminate].
    intros [= <-]. cbn [py_in]. now rewrite E.
  - destruct (existsb _ items) eqn:E; cbn [negb py_setitem]; [|discriminate].
    intros [= <-]. cbn [py_in]. now rewrite E.
  - destruct (dict_has members problemType) eqn:E; cbn [negb py_setitem].
    + intros [= <-]. cbn [py_in]. now rewrite E.
    + intros [= <-]. cbn [py_in]. rewrite dict_set_fresh by assumption.
      unfold dict_has, ret. rewrite existsb_app. cbn [existsb fst].
      rewrite str_eqb_refl. f_equal. apply orb_true_iff. right. reflexivity.
Qed.

(** So a second pass changes nothing. *)
Lemma loop_body_twice (p p' : json) :
  loop_body p = ret p' -> loop_body p' = ret p'.
Proof.
  intros H. apply loop_body_present in H.
  unfold loop_body. now rewrite H.
Qed.

(* ------------------------------------------------------------------------- *)
(** ** The loop *)

Lemma for_each_twice (items items' : list json) :
  for_each loop_body items = ret items' ->
  for_each loop_body items' = ret items'.
Proof.
  revert items'; induction items as [|x items IH]; intros items' H; simpl in H.
  - now injection H as <-.
  - destruct (loop_body x) as [e|x'] eqn:Ex; [discriminate|].
    destruct (for_each loop_body items) as [e|ys] eqn:Eys; [discriminate|].
    simpl in H. injection H as <-.
    simpl. rewrite (loop_body_twice _ _ Ex). simpl.
    now rewrite (IH ys eq_refl).
Qed.

(** The loop keeps the positions: the output at each index is what the body
    makes of the input at that index. *)
Lemma for_each_Forall2 {A B} (body : A -> result B) (xs : list A)
    (ys : list B) :
  for_each body xs = ret ys <-> Forall2 (fun x y => body x = ret y) xs ys.
Proof.
  split.
  - revert ys; induction xs as [|x xs IH]; intros ys H; simpl in H.
    + injection H as <-. constructor.
    + destruct (body x) as [e|y] eqn:Ey; [discriminate|].
      destruct (for_each body xs) as [e|ys'] eqn:Eys; [discriminate|].
      simpl in H. injection H as <-.
      constructor; [assumption | now apply IH].
  - induction 1 as [|x y xs ys Hxy _ IH]; simpl; [reflexivity|].
    now rewrite Hxy, IH.
Qed.

(** Over a collection of records the loop never raises. *)
Lemma for_each_records (records : list dict) :
  exists out,
    for_each loop_body (map JDict records) = ret (map JDict out)
    /\ Forall2 (fun r r' => loop_body (JDict r) = ret (JDict r')) records out.
Proof.
  induction records as [|r records [out [Hout Hall]]].
  - exists []. split; [reflexivity | constructor].
  - destruct (loop_body_record r) as [r' Hr].
    exists (r' :: out). split.
    + simpl. rewrite Hr. simpl. now rewrite Hout.
    + now constructor.
Qed.

Lemma transform_collection (records : list dict) :
  exists out,
    transform (collection records) = ret (collection out)
    /\ Forall2 (fun r r' => loop_body (JDict r) = ret (JDict r')) records out.
Proof.
  destruct (for_each_records records) as [out [Hout Hall]].
  exists out. split; [|assumption].
  unfold collection, transform. now rewrite Hout.
Qed.

Lemma Forall2_nth_error {A B} (R : A -> B -> Prop) (xs : list A)
    (ys : list B) (i : nat) (x : A) :
  Forall2 R xs ys -> nth_error xs i = Some x ->
  exists y, nth_error ys i = Some y /\ R x y.
Proof.
  intros H; revert i; induction H as [|x0 y0 xs ys Hxy _ IH]; intros [|i] Hi;
    simpl in Hi; try discriminate.
  - injection Hi as <-. exists y0. now split.
  - now apply IH.
Qed.

(** What the body makes of a record, by cases. *)
Lemma loop_body_record_inv (r r' : dict) :
  loop_body (JDict r) = ret (JDict r') ->
  (dict_has r problemType = true /\ r' = r)
  \/ (dict_has r problemType = false
      /\ r' = r ++ [(problemType, JStr code)]).
Proof.
  intros H. destruct (dict_has r problemType) eqn:E.
  - left. rewrite (loop_body_has _ E) in H. injection H as <-. now split.
  - right. rewrite (loop_body_lacks _ E) in H. injection H as <-. now split.
Qed.

Lemma loop_body_other_fields (r r' : dict) :
  loop_body (JDict r) = ret (JDict r') -> other_fields r' = other_fields r.
Proof.
  intros H. destruct (loop_body_record_inv _ _ H) as [[_ ->]|[_ ->]];
    [reflexivity | apply other_fields_app_problemType].
Qed.

(* ------------------------------------------------------------------------- *)
(** ** The properties of the transform *)

(** C1 (default correctness).  For every record of the input collection
    that lacks the key [problemType], the loop completes and the record at
    the same position of the output collection has [problemType] equal to
    ['code']. *)
Theorem default_correctness (records : list dict) (i : nat) (r : dict) :
  nth_error records i = Some r ->
  dict_has r problemType = false ->
  exists out r',
    transform (collection records) = ret (collection out)
    /\ nth_error out i = Some r'
    /\ dict_get r' problemType = Some (JStr code).
Proof.
  intros Hi Hlacks.
  destruct (transform_collection records) as [out [Hout Hall]].
  destruct (Forall2_nth_error _ _ _ i _ Hall Hi) as [r' [Hi' Hbody]].
  exists out, r'. repeat split; try assumption.
  rewrite (loop_body_lacks _ Hlacks) in Hbody. injection Hbody as <-.
  rewrite dict_get_app_fresh.
  apply dict_has_false_get in Hlacks. rewrite Hlacks.
  now rewrite str_eqb_refl.
Qed.

Lemma default_correctness_witness :
  nth_error two_records 0 = Some record_1
  /\ dict_has record_1 problemType = false
  /\ exists out r',
       transform (collection two_records) = ret (collection out)
       /\ nth_error out 0 = Some r'
       /\ dict_get r' problemType = Some (JStr code).
Proof.
  split; [reflexivity|]. split; [reflexivity|].
  apply (default_correctness two_records 0 record_1); reflexivity.
Defined.

(** C2 (idempotence).  Applying the transform to its own result gives that
    result again, for every document, the ones it raises on included; and
    over a collection of records the second pass leaves every record as the
    first pass made it. *)
Theorem transform_idempotent :
  (forall problems : json,
      bind (transform problems) transform = transform problems)
  /\ (forall records : list dict,
         exists out,
           transform (collection records) = ret (collection out)
           /\ transform (collection out) = ret (collection out)
           /\ Forall (fun r' => loop_body (JDict r') = ret (JDict r')) out).
Proof.
  split.
  - intros problems.
    destruct (transform problems) as [e|p'] eqn:E; [reflexivity|].
    cbn [bind].
    destruct problems as [| b | n | f | s | items | members];
      cbn [transform py_iter bind ret raise] in E; try discriminate.
    + destruct (for_each _ _) as [e|ys] eqn:Eys; [discriminate|].
      injection E as <-. cbn [transform py_iter bind ret]. now rewrite Eys.
    + destruct (for_each loop_body items) as [e|ys] eqn:Eys; [discriminate|].
      injection E as <-. cbn [transform bind].
      now rewrite (for_each_twice _ _ Eys).
    + destruct (for_each _ _) as [e|ys] eqn:Eys; [discriminate|].
      injection E as <-. cbn [transform py_iter bind ret]. now rewrite Eys.
  - intros records.
    destruct (transform_collection records) as [out [Hout Hall]].
    exists out. split; [assumption|]. split.
    + unfold collection, transform in *.
      destruct (for_each loop_body (map JDict records)) as [e|ys] eqn:Eys;
        [discriminate|].
      injection Hout as ->.
      now rewrite (for_each_twice _ _ Eys).
    + clear Hout. induction Hall as [|r r' rs rs' Hr _ IH]; constructor;
        [|assumption].
      now apply loop_body_twice with (p := JDict r).
Qed.

(** C3 (field preservation).  For every record of the input collection, the
    record at the same position of the output has the same fields other than
    [problemType], with the same values and in the same order: looking up
    any other key gives the same answer before and after, so that no such
    field is added, removed or altered. *)
Theorem field_preservation (records : list dict) (i : nat) (r : dict) :
  nth_error records i = Some r ->
  exists out r',
    transform (collection records) = ret (collection out)
    /\ nth_error out i = Some r'
    /\ other_fields r' = other_fields r
    /\ forall k, k <> problemType -> dict_get r' k = dict_get r k.
Proof.
  intros Hi.
  destruct (transform_collection records) as [out [Hout Hall]].
  destruct (Forall2_nth_error _ _ _ i _ Hall Hi) as [r' [Hi' Hbody]].
  exists out, r'. repeat split; try assumption.
  - now apply loop_body_other_fields.
  - intros k Hk.
    rewrite <- (dict_get_other_fields r' k Hk), <- (dict_get_other_fields r k Hk).
    now rewrite (loop_body_other_fields _ _ Hbody).
Qed.

Lemma field_preservation_witness :
  nth_error two_records 0 = Some record_1
  /\ exists out r',
       transform (collection two_records) = ret (collection out)
       /\ nth_error out 0 = Some r'
       /\ other_fields r' = other_fields record_1
       /\ forall k, k <> problemType -> dict_get r' k = dict_get record_1 k.
Proof.
  split; [reflexivity|].
  apply (field_preservation two_records 0 record_1); reflexivity.
Defined.

(** C4 (non-override).  For every record of the input collection that
    already has the key [problemType], whatever value it holds, the record
    at the same position of the output is that very record, and so holds
    the same value under [problemType]. *)
Theorem non_override (records : list dict) (i : nat) (r : dict) (v : json) :
  nth_error records i = Some r ->
  dict_get r problemType = Some v ->
  exists out r',
    transform (collection records) = ret (collection out)
    /\ nth_error out i = Some r'
    /\ r' = r
    /\ dict_get r' problemType = Some v.
Proof.
  intros Hi Hv.
  destruct (transform_collection records) as [out [Hout Hall]].
  destruct (Forall2_nth_error _ _ _ i _ Hall Hi) as [r' [Hi' Hbody]].
  assert (Hhas : dict_has r problemType = true)
    by (apply dict_has_get; eauto).
  rewrite (loop_body_has _ Hhas) in Hbody. injection Hbody as <-.
  exists out, r. now repeat split.
Qed.

Lemma non_override_witness :
  nth_error two_records 1 = Some record_2
  /\ dict_get record_2 problemType = Some (JStr (lit "quiz"))
  /\ exists out r',
       transform (collection two_records) = ret (collection out)
       /\ nth_error out 1 = Some r'
       /\ r' = record_2
       /\ dict_get r' problemType = Some (JStr (lit "quiz")).
Proof.
  split; [reflexivity|]. split; [reflexivity|].
  apply (non_override two_records 1 record_2 (JStr (lit "quiz"))); reflexivity.
Defined.

(** C5 (cardinality and order).  For every input collection the loop
    completes with a collection of the same length, whose record at each
    position is what the body makes of the input record at that position
    and has the same other fields: no record is added, dropped or moved. *)
Theorem cardinality_and_order (records : list dict) :
  exists out,
    transform (collection records) = ret (collection out)
    /\ List.length out = List.length records
    /\ Forall2 (fun r r' => loop_body (JDict r) = ret (JDict r')
                            /\ other_fields r' = other_fields r)
         records out.
Proof.
  destruct (transform_collection records) as [out [Hout Hall]].
  exists out. split; [assumption|]. split.
  - symmetry. exact (Forall2_length Hall).
  - clear Hout. induction Hall as [|r r' rs rs' Hr _ IH]; constructor;
      [|assumption].
    split; [assumption | now apply loop_body_other_fields].
Qed.

(* ------------------------------------------------------------------------- *)
(** ** The layout of the encoder's output *)

Lemma solid_app (a b : str) : solid a -> solid b -> solid (a ++ b).
Proof.
  unfold solid. destruct a as [|c a]; simpl; [auto|].
  destruct (N.eqb c space); [discriminate | reflexivity].
Qed.

Lemma count_spaces_app (a b : str) :
  solid b -> count_spaces (a ++ b) = count_spaces a.
Proof.
  intros Hb. induction a as [|c a IH]; simpl; [exact Hb|].
  destruct (N.eqb c space); [now rewrite IH | reflexivity].
Qed.

Lemma indents_app (a b : str) :
  solid b -> indents (a ++ b) = indents a ++ indents b.
Proof.
  intros Hb. induction a as [|c a IH]; simpl; [reflexivity|].
  destruct (N.eqb c newline); [|exact IH].
  now rewrite count_spaces_app, IH.
Qed.

Lemma count_spaces_repeat (n : nat) : count_spaces (repeat space n) = n.
Proof. induction n as [|n IH]; simpl; [reflexivity | now rewrite IH]. Qed.

Lemma indents_one_line (s : str) : ~ In newline s -> indents s = [].
Proof.
  induction s as [|c s IH]; simpl; [reflexivity|]. intros H.
  destruct (N.eqb_spec c newline) as [->|_]; [exfalso; auto | auto].
Qed.

Lemma repeat_space_one_line (n : nat) : ~ In newline (repeat space n).
Proof. intros H. apply repeat_spec in H. discriminate. Qed.

Lemma indents_newline (s : str) :
  indents (newline :: s) = count_spaces s :: indents s.
Proof. reflexivity. Qed.

(** A line break and its spaces, before text that does not start with a
    space, open a line indented by that many spaces. *)
Lemma indents_newline_indent (indent level : nat) (rest : str) :
  solid rest ->
  indents (newline_indent indent level ++ rest)
  = indent * level :: indents rest.
Proof.
  intros H. unfold newline_indent.
  rewrite <- app_comm_cons, indents_newline.
  rewrite count_spaces_app, indents_app by assumption.
  rewrite count_spaces_repeat.
  now rewrite (indents_one_line _ (repeat_space_one_line _)).
Qed.

Lemma solid_newline_indent (indent level : nat) (rest : str) :
  solid (newline_indent indent level ++ rest).
Proof. reflexivity. Qed.

(** *** Scalars are single solid words *)

(** A printed number holds no line break. *)
Lemma uint_digits_one_line (d : Decimal.uint) :
  ~ In newline (uint_digits d).
Proof.
  induction d; simpl; intros H; try (destruct H as [H|H]; [discriminate|]);
    auto.
Qed.

Lemma uint_digits_space (d : Decimal.uint) : ~ In space (uint_digits d).
Proof.
  induction d; simpl; intros H; try (destruct H as [H|H]; [discriminate|]);
    auto.
Qed.

Lemma solid_head (c : char) (s : str) : c <> space -> solid (c :: s).
Proof.
  intros H. unfold solid. simpl.
  now destruct (N.eqb_spec c space).
Qed.

Lemma solid_no_space (s : str) : ~ In space s -> solid s.
Proof.
  destruct s as [|c s]; [reflexivity|]. intros H.
  apply solid_head. intros ->. apply H. now left.
Qed.

Lemma int_digits_one_line (i : Decimal.int) : ~ In newline (int_digits i).
Proof.
  destruct i as [u|u]; simpl; intros H.
  - now apply uint_digits_one_line in H.
  - destruct H as [H|H]; [discriminate | now apply uint_digits_one_line in H].
Qed.

Lemma int_digits_space (i : Decimal.int) : ~ In space (int_digits i).
Proof.
  destruct i as [u|u]; simpl; intros H.
  - now apply uint_digits_space in H.
  - destruct H as [H|H]; [discriminate | now apply uint_digits_space in H].
Qed.

Lemma fraction_plain (f : Decimal.uint) :
  ~ In newline (fraction f) /\ ~ In space (fraction f).
Proof.
  assert (H : forall c, c <> 46%N -> ~ In c (uint_digits f) ->
                        ~ In c (fraction f)).
  { intros c Hc Hd. destruct f; simpl; auto;
      intros [E|[E|E]]; try (now apply Hc); apply Hd; simpl; auto. }
  split; apply H; try discriminate.
  - apply uint_digits_one_line.
  - apply uint_digits_space.
Qed.

Lemma exponent_plain (e : Decimal.int) :
  ~ In newline (exponent e) /\ ~ In space (exponent e).
Proof.
  destruct e as [u|u]; simpl; split; intros [E|[E|E]]; try discriminate;
    try (now apply uint_digits_one_line in E);
    now apply uint_digits_space in E.
Qed.

Lemma floatstr_plain (f : pyfloat) :
  ~ In newline (floatstr f) /\ ~ In space (floatstr f).
Proof.
  destruct f as [|[|]|[i f|i f e]]; simpl;
    try (split; intros H; vm_compute in H; intuition discriminate).
  - split; intros H; apply in_app_or in H as [H|H].
    + now apply int_digits_one_line in H.
    + now apply (proj1 (fraction_plain f)).
    + now apply int_digits_space in H.
    + now apply (proj2 (fraction_plain f)).
  - split; intros H; apply in_app_or in H as [H|H];
      try apply in_app_or in H as [H|H].
    + now apply int_digits_one_line in H.
    + now apply (proj1 (fraction_plain f)).
    + now apply (proj1 (exponent_plain e)).
    + now apply int_digits_space in H.
    + now apply (proj2 (fraction_plain f)).
    + now apply (proj2 (exponent_plain e)).
Qed.

Lemma hex_digit_printable (d : N) : (48 <= hex_digit d)%N.
Proof. unfold hex_digit. destruct (d <? 10)%N; lia. Qed.

Lemma unicode_escape_one_line (n : N) : ~ In newline (unicode_escape n).
Proof.
  unfold unicode_escape, hex4, newline. simpl. intros H.
  repeat (destruct H as [H|H]; try discriminate);
    match type of H with
    | hex_digit ?d = _ => pose proof (hex_digit_printable d); lia
    | False => exact H
    end.
Qed.

(** No character of a string is written as a line break: the line feed
    itself becomes a backslash and an [n]. *)
Lemma escape_char_one_line (c : char) : ~ In newline (escape_char c).
Proof.
  unfold escape_char. intros H.
  repeat match type of H with
         | context [if ?b then _ else _] => destruct b eqn:?; cbv iota in H
         end;
    lazymatch type of H with
    | In _ [c] =>
        destruct H as [H|[]];
        match goal with
        | E : (_ && _) = true |- _ =>
            apply andb_true_iff in E as [E _]; apply N.leb_le in E
        end;
        unfold newline in H; lia
    | In _ (unicode_escape _) => now apply unicode_escape_one_line in H
    | In _ (_ ++ _) =>
        apply in_app_or in H as [H|H];
        now apply unicode_escape_one_line in H
    | _ => vm_compute in H; intuition discriminate
    end.
Qed.

Lemma encode_basestring_ascii_plain (s : str) :
  solid (encode_basestring_ascii s)
  /\ indents (encode_basestring_ascii s) = [].
Proof.
  split; [now apply solid_head|].
  apply indents_one_line. unfold encode_basestring_ascii.
  intros [H|H]; [discriminate|].
  apply in_app_or in H as [H|[H|[]]]; [|discriminate].
  apply in_flat_map in H as [c [_ H]].
  now apply escape_char_one_line in H.
Qed.

(** *** Containers put each item on a line of its own *)

Lemma walk_app (indent a m b : nat) (p q : list nat) :
  walk indent a p m -> walk indent m q b -> walk indent a (p ++ q) b.
Proof.
  revert a; induction p as [|n p IH]; intros a; simpl.
  - now intros ->.
  - intros [Hs Hp] Hq. split; [assumption | now apply IH].
Qed.

Lemma indents_cons (c : char) (s : str) :
  c <> newline -> indents (c :: s) = indents s.
Proof. intros H. simpl. now destruct (N.eqb_spec c newline). Qed.

(** The items of a container, each a solid text whose lines come back to
    the items' indentation, joined by a comma and a line break. *)
Lemma join_layout (indent level : nat) (chunks : list str) :
  Forall (fun c => solid c
                   /\ walk indent (indent * level) (indents c)
                        (indent * level)) chunks ->
  solid (join (lit "," ++ newline_indent indent level) chunks)
  /\ walk indent (indent * level)
       (indents (join (lit "," ++ newline_indent indent level) chunks))
       (indent * level).
Proof.
  induction 1 as [|c rest [Hsolid Hwalk] Hrest [IHsolid IHwalk]].
  - now split.
  - destruct rest as [|c' rest]; [now split|].
    cbn [join]. cbn [join] in IHsolid, IHwalk.
    set (tail := match rest with
                 | [] => c'
                 | _ :: _ => _
                 end) in *.
    change (lit ",") with [44%N].
    assert (Hsep : solid ([44%N] ++ newline_indent indent level ++ tail))
      by now apply solid_head.
    split.
    + rewrite <- app_assoc. now apply solid_app.
    + rewrite <- app_assoc, indents_app by assumption.
      apply walk_app with (m := indent * level); [assumption|].
      cbn [Datatypes.app]. rewrite indents_cons by discriminate.
      rewrite indents_newline_indent by assumption.
      split; [now left | assumption].
Qed.

(** A non-empty container: the opening bracket, the items one level deeper,
    the closing bracket back at the container's own level. *)
Lemma container_layout (indent level : nat) (opening closing : char)
    (chunks : list str) (body out : str) :
  opening <> newline -> opening <> space ->
  closing <> newline -> closing <> space ->
  Forall (fun c => solid c
                   /\ walk indent (indent * S level) (indents c)
                        (indent * S level)) chunks ->
  body = join (lit "," ++ newline_indent indent (S level)) chunks ->
  out = [opening] ++ newline_indent indent (S level) ++ body
        ++ newline_indent indent level ++ [closing] ->
  solid out
  /\ indents out = indent * S level :: indents body ++ [indent * level]
  /\ walk indent (indent * level) (indents out) (indent * level).
Proof.
  intros Ho Ho' Hc Hc' Hchunks Hbody Hout.
  destruct (join_layout indent (S level) chunks Hchunks) as [Hsolid Hwalk].
  rewrite <- Hbody in Hsolid, Hwalk.
  assert (Hclose : solid [closing]) by now apply solid_head.
  assert (Hlines : indents out
                   = indent * S level :: indents body ++ [indent * level]).
  { rewrite Hout. cbn [Datatypes.app]. rewrite indents_cons by assumption.
    rewrite indents_newline_indent
      by (apply solid_app; [assumption | apply solid_newline_indent]).
    rewrite indents_app by apply solid_newline_indent.
    rewrite indents_newline_indent by assumption.
    now rewrite (indents_cons closing []) by assumption. }
  split; [rewrite Hout; now apply solid_head|]. split; [assumption|].
  rewrite Hlines. split.
  - right. left. apply Nat.mul_succ_r.
  - apply walk_app with (m := indent * S level); [assumption|].
    split; [|reflexivity].
    right. right. apply Nat.mul_succ_r.
Qed.

Lemma encode_list (indent level : nat) (x : json) (xs : list json) :
  encode indent level (JList (x :: xs))
  = [91%N] ++ newline_indent indent (S level)
    ++ join (lit "," ++ newline_indent indent (S level))
         (map (encode indent (S level)) (x :: xs))
    ++ newline_indent indent level ++ [93%N].
Proof. reflexivity. Qed.

Lemma encode_dict (indent level : nat) (kv : str * json)
    (members : list (str * json)) :
  encode indent level (JDict (kv :: members))
  = [123%N] ++ newline_indent indent (S level)
    ++ join (lit "," ++ newline_indent indent (S level))
         (map (fun kv => encode_basestring_ascii (fst kv) ++ lit ": "
                         ++ encode indent (S level) (snd kv))
            (kv :: members))
    ++ newline_indent indent level ++ [125%N].
Proof. reflexivity. Qed.

(** A key, a colon, a space and the value: the lines of the value. *)
Lemma member_layout (key value : str) :
  solid value ->
  solid (encode_basestring_ascii key ++ lit ": " ++ value)
  /\ indents (encode_basestring_ascii key ++ lit ": " ++ value)
     = indents value.
Proof.
  intros Hv.
  destruct (encode_basestring_ascii_plain key) as [Hsolid Hline].
  change (lit ": ") with [58%N; 32%N].
  assert (Hsep : solid ([58%N; 32%N] ++ value)) by now apply solid_head.
  split; [now apply solid_app|].
  rewrite indents_app, Hline by assumption.
  cbn [Datatypes.app]. now rewrite !indents_cons by discriminate.
Qed.

(** The layout of a document that sits [level] containers deep: its text
    does not start with a space, and line after line the indentation moves
    by steps of [indent], from [indent * level] and back to it. *)
Lemma encode_layout (indent : nat) (o : json) :
  forall level,
    solid (encode indent level o)
    /\ walk indent (indent * level) (indents (encode indent level o))
         (indent * level).
Proof.
  induction o as [| b | n | f | s | items IH | members IH] using json_ind;
    intros level.
  - now split.
  - now destruct b; split.
  - cbn [encode]. unfold str_of_int. split.
    + apply solid_no_space, int_digits_space.
    + now rewrite (indents_one_line _ (int_digits_one_line _)).
  - cbn [encode]. destruct (floatstr_plain f) as [Hline Hspace]. split.
    + now apply solid_no_space.
    + now rewrite (indents_one_line _ Hline).
  - cbn [encode]. destruct (encode_basestring_ascii_plain s) as [Hs Hl].
    split; [assumption | now rewrite Hl].
  - destruct items as [|x xs]; [now split|].
    assert (Hchunks :
             Forall (fun c => solid c
                              /\ walk indent (indent * S level) (indents c)
                                   (indent * S level))
               (map (encode indent (S level)) (x :: xs))).
    { apply Forall_map. revert IH. apply Forall_impl. intros y Hy.
      apply Hy. }
    destruct (container_layout indent level 91%N 93%N _ _ _
                ltac:(discriminate) ltac:(discriminate)
                ltac:(discriminate) ltac:(discriminate)
                Hchunks eq_refl (encode_list indent level x xs))
      as [Hsolid [_ Hwalk]].
    now split.
  - destruct members as [|kv members]; [now split|].
    assert (Hchunks :
             Forall (fun c => solid c
                              /\ walk indent (indent * S level) (indents c)
                                   (indent * S level))
               (map (fun kv => encode_basestring_ascii (fst kv) ++ lit ": "
                               ++ encode indent (S level) (snd kv))
                  (kv :: members))).
    { apply Forall_map. revert IH. apply Forall_impl. intros [k v] Hv.
      cbn [fst snd] in *. destruct (Hv (S level)) as [Hsolid Hwalk].
      destruct (member_layout k _ Hsolid) as [Hs Hi].
      split; [assumption | now rewrite Hi]. }
    destruct (container_layout indent level 123%N 125%N _ _ _
                ltac:(discriminate) ltac:(discriminate)
                ltac:(discriminate) ltac:(discriminate)
                Hchunks eq_refl (encode_dict indent level kv members))
      as [Hsolid [_ Hwalk]].
    now split.
Qed.

(** The top of the document: a non-empty [list] or [dict] sends its first
    item to a new line behind [indent] spaces; anything else is written on
    one line. *)
Lemma dumps_first_indent (indent : nat) (o : json) :
  match o with
  | JList (_ :: _) | JDict (_ :: _) =>
      exists rest, indents (json_dumps indent o) = indent :: rest
  | _ => indents (json_dumps indent o) = []
  end.
Proof.
  unfold json_dumps.
  destruct o as [| b | n | f | s | [|x xs] | [|kv members]];
    try reflexivity.
  - now destruct b.
  - cbn [encode]. apply indents_one_line, int_digits_one_line.
  - cbn [encode]. apply indents_one_line, floatstr_plain.
  - apply encode_basestring_ascii_plain.
  - rewrite encode_list. cbn [Datatypes.app]. rewrite indents_cons by discriminate.
    rewrite indents_newline_indent, Nat.mul_1_r; [now eexists|].
    apply solid_app; [|apply solid_newline_indent].
    apply join_layout. apply Forall_map, Forall_forall.
    intros y _. apply encode_layout.
  - rewrite encode_dict. cbn [Datatypes.app]. rewrite indents_cons by discriminate.
    rewrite indents_newline_indent, Nat.mul_1_r; [now eexists|].
    apply solid_app; [|apply solid_newline_indent].
    apply join_layout. apply Forall_map, Forall_forall.
    intros [k v] _. cbn [fst snd].
    destruct (encode_layout indent v 1) as [Hsolid Hwalk].
    destruct (member_layout k _ Hsolid) as [Hs Hi].
    split; [assumption | now rewrite Hi].
Qed.

(* ------------------------------------------------------------------------- *)
(** ** The run as a whole *)

(** The loop only ever raises [TypeError]. *)
Lemma loop_body_raises (p : json) (e : exn) :
  loop_body p = raise e -> e = TypeError.
Proof.
  unfold loop_body, raise.
  destruct p as [| b | n | f | s | items | members];
    cbn [py_in bind ret raise]; try congruence.
  - destruct (negb _); cbn [py_setitem]; unfold raise, ret; congruence.
  - destruct (negb _); cbn [py_setitem]; unfold raise, ret; congruence.
  - destruct (negb _); cbn [py_setitem]; unfold raise, ret; congruence.
Qed.

Lemma for_each_raises (items : list json) (e : exn) :
  for_each loop_body items = raise e -> e = TypeError.
Proof.
  induction items as [|x items IH]; simpl; [discriminate|].
  destruct (loop_body x) as [e'|x'] eqn:Ex.
  - intros [= <-]. now apply loop_body_raises with (p := x).
  - destruct (for_each loop_body items) as [e'|ys]; simpl; [|discriminate].
    intros [= <-]. now apply IH.
Qed.

Lemma transform_raises (problems : json) (e : exn) :
  transform problems = raise e -> e = TypeError.
Proof.
  unfold raise.
  destruct problems as [| b | n | f | s | items | members];
    cbn [transform py_iter bind ret raise]; try congruence.
  - destruct (for_each _ _) as [e'|ys] eqn:E; [|discriminate].
    intros [= <-]. now apply for_each_raises in E.
  - destruct (for_each _ _) as [e'|ys] eqn:E; [|discriminate].
    intros [= <-]. now apply for_each_raises in E.
  - destruct (for_each _ _) as [e'|ys] eqn:E; [|discriminate].
    intros [= <-]. now apply for_each_raises in E.
Qed.

Lemma for_each_length {A B} (body : A -> result B) (xs : list A)
    (ys : list B) :
  for_each body xs = ret ys -> List.length ys = List.length xs.
Proof.
  intros H. apply for_each_Forall2 in H. symmetry.
  exact (Forall2_length H).
Qed.

(** What the loop returns has a length, the length of what it was given. *)
Lemma transform_len (problems problems' : json) :
  transform problems = ret problems' ->
  exists n, py_len problems' = ret n /\ py_len problems = ret n.
Proof.
  destruct problems as [| b | n | f | s | items | members];
    cbn [transform py_iter bind ret raise]; try discriminate.
  - destruct (for_each _ _); [discriminate|]. intros [= <-]. now eexists.
  - destruct (for_each loop_body items) as [e|ys] eqn:E; [discriminate|].
    intros [= <-]. exists (List.length items). cbn [py_len].
    now rewrite (for_each_length _ _ _ E).
  - destruct (for_each _ _); [discriminate|]. intros [= <-]. now eexists.
Qed.

Section Run.

Variable json_load : str -> option json.

(** The run, outcome by outcome. *)
Lemma script_unfold (w : world) :
  script json_load w =
  match file w with
  | None => (raise (OSError ModeR), w)
  | Some content =>
      match json_load content with
      | None => (raise JSONDecodeError, w)
      | Some problems =>
          match transform problems with
          | inl e => (inl e, w)
          | inr problems' =>
              if writable w then
                print
                  (report
                     (match py_len problems' with
                      | inr n => n
                      | inl _ => 0
                      end))
                  {| file := Some (json_dumps 4 problems');
                     writable := writable w;
                     cut := cut w;
                     stdout := stdout w |}
              else
                match cut w with
                | None => (raise (OSError ModeW), w)
                | Some n =>
                    (raise (OSError ModeW),
                     {| file := Some (firstn n (json_dumps 4 problems'));
                        writable := writable w;
                        cut := cut w;
                        stdout := stdout w |})
                end
          end
      end
  end.
Proof.
  unfold script, io_bind, read_file, eval, load, write_file.
  destruct (file w) as [content|]; [|reflexivity].
  cbn [ret].
  destruct (json_load content) as [problems|]; [|reflexivity].
  cbn [ret].
  destruct (transform problems) as [e|problems'] eqn:E; [reflexivity|].
  destruct (writable w); [|now destruct (cut w)].
  destruct (transform_len _ _ E) as [n [-> _]]. reflexivity.
Qed.

(** How the run ends, outcome by outcome. *)
Lemma script_outcome (w : world) :
  fst (script json_load w) =
  match file w with
  | None => raise (OSError ModeR)
  | Some content =>
      match json_load content with
      | None => raise JSONDecodeError
      | Some problems =>
          match transform problems with
          | inl e => inl e
          | inr _ => if writable w then ret tt else raise (OSError ModeW)
          end
      end
  end.
Proof.
  rewrite script_unfold.
  destruct (file w) as [content|]; [|reflexivity].
  destruct (json_load content) as [problems|]; [|reflexivity].
  destruct (transform problems) as [e|problems']; [reflexivity|].
  destruct (writable w); [reflexivity|].
  now destruct (cut w).
Qed.

(** A run that completes, step by step. *)
Lemma script_completes (w : world) (content : str)
    (problems problems' : json) (n : nat) :
  file w = Some content ->
  json_load content = Some problems ->
  transform problems = ret problems' ->
  py_len problems' = ret n ->
  writable w = true ->
  script json_load w =
  (ret tt, {| file := Some (json_dumps 4 problems');
              writable := true;
              cut := cut w;
              stdout := stdout w ++ report n ++ [newline] |}).
Proof.
  intros Hf Hl Ht Hn Hw. unfold ret in Ht, Hn.
  rewrite script_unfold, Hf, Hl, Ht, Hw, Hn.
  reflexivity.
Qed.

(** A run that raises before the writing block, or at its [open], leaves
    the file and the output as they were. *)
Lemma script_raises (w w' : world) (e : exn) :
  script json_load w = (raise e, w') ->
  e <> OSError ModeW \/ cut w = None -> w' = w.
Proof.
  rewrite script_unfold.
  destruct (file w) as [content|]; [|now intros [= _ <-]].
  destruct (json_load content) as [problems|]; [|now intros [= _ <-]].
  destruct (transform problems) as [e'|problems']; [now intros [= _ <-]|].
  destruct (writable w); [discriminate|].
  destruct (cut w) as [n|]; [|now intros [= _ <-]].
  intros [= <- _] [H|H]; [now destruct H | discriminate].
Qed.

(** The printed line is one line. *)
Lemma report_one_line (n : nat) : ~ In newline (report n).
Proof.
  unfold report, str_of_nat. intros H.
  apply in_app_or in H as [H|H].
  - vm_compute in H. intuition discriminate.
  - apply in_app_or in H as [H|H].
    + now apply uint_digits_one_line in H.
    + vm_compute in H. intuition discriminate.
Qed.

Lemma printed_line_count (n : nat) :
  count_occ N.eq_dec (report n ++ [newline]) newline = 1.
Proof.
  pose proof (report_one_line n) as H.
  apply (count_occ_not_In N.eq_dec) in H.
  rewrite count_occ_app. unfold char in *. rewrite H. reflexivity.
Qed.

(** C6 (reported count).  When the file holds a collection of records and
    can be written, the run completes and prints exactly one line,
    [Updated {count} problems.], where the count is the number of records
    of the collection, whether or not any of them lacked the key. *)
Theorem reported_count (w : world) (content : str) (records : list dict) :
  file w = Some content ->
  json_load content = Some (collection records) ->
  writable w = true ->
  exists w',
    script json_load w = (ret tt, w')
    /\ stdout w' = stdout w ++ report (List.length records) ++ [newline]
    /\ report (List.length records) =
       lit "Updated " ++ str_of_nat (List.length records)
       ++ lit " problems."
    /\ count_occ N.eq_dec (report (List.length records) ++ [newline])
         newline = 1.
Proof.
  intros Hf Hl Hw.
  destruct (transform_collection records) as [out [Hout Hall]].
  eexists. split.
  - apply (script_completes w content _ _ (List.length records)
             Hf Hl Hout); [|assumption].
    unfold collection. cbn [py_len]. rewrite length_map.
    now rewrite <- (Forall2_length Hall).
  - cbn [stdout]. split; [reflexivity|]. split; [reflexivity|].
    apply printed_line_count.
Qed.

(** C7 (parse failure).  When the text of the file is not JSON, the run
    ends with the decoder's exception and the world is as it was: the
    file is never opened for writing and nothing is printed. *)
Theorem parse_failure_leaves_file (w : world) (content : str) :
  file w = Some content ->
  json_load content = None ->
  script json_load w = (raise JSONDecodeError, w).
Proof.
  intros Hf Hl. now rewrite script_unfold, Hf, Hl.
Qed.

(** C8, as amended.  The run ends with the decoder's exception exactly
    when the decoder rejects the text.  When the text decodes, whatever
    the shape of the value, the loop either raises [TypeError], and the
    world is as it was, or completes, and the run then ends according to
    whether the file can be written.  Over a collection of records the
    run never raises [TypeError]. *)
Theorem parse_error_iff_not_json (w : world) (content : str) :
  file w = Some content ->
  (fst (script json_load w) = raise JSONDecodeError
   <-> json_load content = None)
  /\ (forall problems,
         json_load content = Some problems ->
         (transform problems = raise TypeError
          /\ script json_load w = (raise TypeError, w))
         \/ (exists problems',
                transform problems = ret problems'
                /\ fst (script json_load w) =
                   if writable w then ret tt else raise (OSError ModeW)))
  /\ (forall records,
         json_load content = Some (collection records) ->
         fst (script json_load w) <> raise TypeError).
Proof.
  intros Hf. rewrite script_unfold, Hf. repeat split.
  - destruct (json_load content) as [problems|]; [|reflexivity].
    destruct (transform problems) as [e|problems'] eqn:E.
    + apply transform_raises in E. subst e. discriminate.
    + destruct (writable w); [|destruct (cut w)]; discriminate.
  - now intros ->.
  - intros problems ->.
    destruct (transform problems) as [e|problems'] eqn:E.
    + left. apply transform_raises in E. subst e. now split.
    + right. exists problems'. split; [reflexivity|].
      destruct (writable w); [|destruct (cut w)]; reflexivity.
  - intros records ->.
    destruct (transform_collection records) as [out [-> _]].
    cbn [ret]. destruct (writable w); [|destruct (cut w)]; discriminate.
Qed.

(** A run that completes found the file writable. *)
Lemma script_completes_writable (w : world) :
  fst (script json_load w) = ret tt -> writable w = true.
Proof.
  rewrite script_unfold.
  destruct (file w) as [content|]; [|discriminate].
  destruct (json_load content) as [problems|]; [|discriminate].
  destruct (transform problems) as [e|problems'];
    [discriminate|].
  destruct (writable w); [reflexivity|].
  destruct (cut w); discriminate.
Qed.

(** A run on bytes that completes: the bytes decoded, the text decoded,
    the loop got through, and the state it ends in. *)
Lemma script_on_bytes_completes (decode : bytes -> option str) (w : world) :
  fst (script_on_bytes json_load decode w) = ret tt ->
  exists raw content problems problems' n,
    file w = Some raw
    /\ decode raw = Some content
    /\ json_load (universal_newlines content) = Some problems
    /\ transform problems = ret problems'
    /\ py_len problems = ret n
    /\ script_on_bytes json_load decode w
       = (ret tt, {| file := Some (json_dumps 4 problems');
                     writable := true;
                     cut := cut w;
                     stdout := stdout w ++ report n ++ [newline] |}).
Proof.
  unfold script_on_bytes.
  destruct (file w) as [raw|]; [|discriminate].
  destruct (decode raw) as [content|] eqn:D; [|discriminate].
  rewrite script_unfold. cbn [file writable cut stdout].
  destruct (json_load _) as [problems|] eqn:L; [|discriminate].
  destruct (transform problems) as [e|problems'] eqn:T; [discriminate|].
  destruct (writable w); [|destruct (cut w); discriminate].
  destruct (transform_len _ _ T) as [n [Hn' Hn]]. unfold ret in Hn'.
  rewrite Hn'. intros _.
  exists raw, content, problems, problems', n. now repeat split.
Qed.


(** C9 (overwrite, indent 4).  When the loop completes and the file can be
    written, the run completes and the file then holds the serialized
    document and nothing else: what was there before is gone.  The text
    is laid out with an indent of 4: its first line is not indented, from
    each line to the next the indentation stays the same or moves by
    exactly 4 spaces, the last line is not indented, and a non-empty
    [list] or [dict] has its first item on the second line behind 4
    spaces. *)
Theorem overwrite_with_indent_4 (w : world) (content : str)
    (problems problems' : json) :
  file w = Some content ->
  json_load content = Some problems ->
  transform problems = ret problems' ->
  writable w = true ->
  exists w',
    script json_load w = (ret tt, w')
    /\ file w' = Some (json_dumps 4 problems')
    /\ solid (json_dumps 4 problems')
    /\ walk 4 0 (indents (json_dumps 4 problems')) 0
    /\ match problems' with
       | JList (_ :: _) | JDict (_ :: _) =>
           exists rest, indents (json_dumps 4 problems') = 4 :: rest
       | _ => indents (json_dumps 4 problems') = []
       end.
Proof.
  intros Hf Hl Ht Hw.
  destruct (transform_len _ _ Ht) as [n [Hn _]].
  eexists. split;
    [exact (script_completes w content _ _ n Hf Hl Ht Hn Hw)|].
  cbn [file]. split; [reflexivity|].
  destruct (encode_layout 4 problems' 0) as [Hsolid Hwalk].
  split; [assumption|]. split; [assumption|].
  apply dumps_first_indent.
Qed.

End Run.

Lemma reported_count_witness :
  file (world_of scenario_1) = Some scenario_1
  /\ reference_load scenario_1 = Some (collection two_records)
  /\ writable (world_of scenario_1) = true
  /\ exists w',
       script reference_load (world_of scenario_1) = (ret tt, w')
       /\ stdout w' =
          stdout (world_of scenario_1)
          ++ report (List.length two_records) ++ [newline]
       /\ report (List.length two_records) =
          lit "Updated " ++ str_of_nat (List.length two_records)
          ++ lit " problems."
       /\ count_occ N.eq_dec (report (List.length two_records) ++ [newline])
            newline = 1.
Proof.
  split; [reflexivity|]. split; [vm_compute; reflexivity|].
  split; [reflexivity|].
  apply (reported_count reference_load (world_of scenario_1) scenario_1
           two_records); [reflexivity | vm_compute; reflexivity | reflexivity].
Defined.

Lemma parse_failure_leaves_file_witness :
  file (world_of not_json) = Some not_json
  /\ reference_load not_json = None
  /\ script reference_load (world_of not_json)
     = (raise JSONDecodeError, world_of not_json).
Proof.
  split; [reflexivity|]. split; [vm_compute; reflexivity|].
  apply (parse_failure_leaves_file reference_load (world_of not_json)
           not_json); [reflexivity | vm_compute; reflexivity].
Defined.

(** C8, as the specification has it, fails: the text [{}] decodes to an
    empty [dict], which is no sequence of records, and the run completes;
    the text [5] decodes to an [int] and the run raises [TypeError].
    Neither run ends with the decoder's exception. *)
Lemma parse_error_on_other_shapes_counterexample :
  (reference_load empty_object = Some (JDict [])
   /\ (forall records, JDict [] <> collection records)
   /\ script reference_load (world_of empty_object)
      = (ret tt, {| file := Some empty_object;
                    writable := true;
                    cut := None;
                    stdout := lit "Updated 0 problems." ++ [newline] |})
   /\ fst (script reference_load (world_of empty_object))
      <> raise JSONDecodeError)
  /\ (reference_load a_number = Some (JInt 5)
      /\ (forall records, JInt 5 <> collection records)
      /\ script reference_load (world_of a_number)
         = (raise TypeError, world_of a_number)
      /\ fst (script reference_load (world_of a_number))
         <> raise JSONDecodeError).
Proof.
  split; (split; [vm_compute; reflexivity|]);
    (split; [intros records; discriminate|]);
    (split; [vm_compute; reflexivity | vm_compute; discriminate]).
Qed.

Lemma parse_error_iff_not_json_witness :
  file (world_of empty_object) = Some empty_object
  /\ (fst (script reference_load (world_of empty_object))
      = raise JSONDecodeError
      <-> reference_load empty_object = None)
  /\ (forall problems,
         reference_load empty_object = Some problems ->
         (transform problems = raise TypeError
          /\ script reference_load (world_of empty_object)
             = (raise TypeError, world_of empty_object))
         \/ (exists problems',
                transform problems = ret problems'
                /\ fst (script reference_load (world_of empty_object)) =
                   if writable (world_of empty_object)
                   then ret tt else raise (OSError ModeW)))
  /\ (forall records,
         reference_load empty_object = Some (collection records) ->
         fst (script reference_load (world_of empty_object))
         <> raise TypeError).
Proof.
  split; [reflexivity|].
  apply (parse_error_iff_not_json reference_load (world_of empty_object)
           empty_object). reflexivity.
Defined.



Lemma overwrite_with_indent_4_witness :
  file (world_of scenario_1) = Some scenario_1
  /\ reference_load scenario_1 = Some (collection two_records)
  /\ transform (collection two_records) = ret (collection two_records_done)
  /\ writable (world_of scenario_1) = true
  /\ exists w',
       script reference_load (world_of scenario_1) = (ret tt, w')
       /\ file w' = Some (json_dumps 4 (collection two_records_done))
       /\ solid (json_dumps 4 (collection two_records_done))
       /\ walk 4 0 (indents (json_dumps 4 (collection two_records_done))) 0
       /\ exists rest,
            indents (json_dumps 4 (collection two_records_done)) = 4 :: rest.
Proof.
  split; [reflexivity|]. split; [vm_compute; reflexivity|].
  split; [reflexivity|]. split; [reflexivity|].
  apply (overwrite_with_indent_4 reference_load (world_of scenario_1)
           scenario_1 (collection two_records)
           (collection two_records_done));
    [reflexivity | vm_compute; reflexivity | reflexivity | reflexivity].
Defined.

(* ------------------------------------------------------------------------- *)
(** ** The scenarios of the specification, run *)

(** Scenario 1: one record gets the default, the other keeps its own. *)
Example scenario_1_run :
  script reference_load (world_of scenario_1)
  = (ret tt,
     {| file := Some (text "[
    {
        'id': 1,
        'problemType': 'code'
    },
    {
        'id': 2,
        'problemType': 'quiz'
    }
]");
        writable := true;
        cut := None;
        stdout := lit "Updated 2 problems." ++ [newline] |}).
Proof. vm_compute. reflexivity. Qed.

(** Scenario 2: the empty collection. *)
Example scenario_2_run :
  script reference_load (world_of (text "[]"))
  = (ret tt,
     {| file := Some (text "[]");
        writable := true;
        cut := None;
        stdout := lit "Updated 0 problems." ++ [newline] |}).
Proof. vm_compute. reflexivity. Qed.

(** Scenario 3: text that is not JSON. *)
Example scenario_3_run :
  script reference_load (world_of not_json)
  = (raise JSONDecodeError, world_of not_json).
Proof. vm_compute. reflexivity. Qed.

(** Scenario 4: a second run finds the file the first one wrote, and
    writes the same text again. *)
Example scenario_4_run :
  let once := snd (script reference_load
                     (world_of (text "[{'problemType': 'code'}]"))) in
  let twice := snd (script reference_load once) in
  file once = Some (text "[
    {
        'problemType': 'code'
    }
]")
  /\ file twice = file once.
Proof. vm_compute. split; reflexivity. Qed.

(** Documents of other shapes.  An [int] cannot be iterated; a [list] inside
    the collection is searched for the string, and raises only when the
    string is not in it. *)
Example other_shapes_run :
  fst (script reference_load (world_of a_number)) = raise TypeError
  /\ fst (script reference_load (world_of (text "[{'id': 1}, 5]")))
     = raise TypeError
  /\ fst (script reference_load (world_of (text "[['problemType']]")))
     = ret tt
  /\ fst (script reference_load (world_of (text "[['id']]")))
     = raise TypeError
  /\ fst (script reference_load (world_of (text "''"))) = ret tt
  /\ fst (script reference_load (world_of (text "'problemType'")))
     = raise TypeError.
Proof. vm_compute. repeat split. Qed.

(* ------------------------------------------------------------------------- *)
(** ** Further properties of the loop *)

Lemma loop_body_set_default (r : dict) :
  loop_body (JDict r) = ret (JDict (set_default r)).
Proof.
  unfold set_default. destruct (dict_has r problemType) eqn:E.
  - now apply loop_body_has.
  - now apply loop_body_lacks.
Qed.

Lemma for_each_set_default (records : list dict) :
  for_each loop_body (map JDict records)
  = ret (map JDict (map set_default records)).
Proof.
  induction records as [|r records IH]; [reflexivity|].
  cbn [map for_each]. rewrite loop_body_set_default. cbn [bind ret].
  now rewrite IH.
Qed.

Lemma set_default_has (r : dict) :
  dict_has (set_default r) problemType = true.
Proof.
  unfold set_default. destruct (dict_has r problemType) eqn:E; [assumption|].
  unfold dict_has. rewrite existsb_app. cbn [existsb fst].
  rewrite str_eqb_refl. apply orb_true_iff. now right.
Qed.

Lemma dict_has_keys (r : dict) (k : str) :
  dict_has r k = true <-> In k (keys r).
Proof.
  unfold dict_has, keys. rewrite existsb_exists, in_map_iff. split.
  - intros [kv [Hin Heq]]. apply str_eqb_eq in Heq. now exists kv.
  - intros [kv [Heq Hin]]. exists kv. split; [assumption|].
    apply str_eqb_eq. now symmetry.
Qed.

Lemma map_JDict_inj (a b : list dict) :
  map JDict a = map JDict b -> a = b.
Proof.
  revert b. induction a as [|x a IH]; intros [|y b] H; try discriminate;
    [reflexivity|].
  cbn [map] in H. injection H as -> H. f_equal. now apply IH.
Qed.

Lemma collection_inj (a b : list dict) :
  collection a = collection b -> a = b.
Proof. unfold collection. intros [= H]. now apply map_JDict_inj. Qed.

(** X1 (the loop as a map).  Over a collection of records the loop comes to
    applying one function to every record: a record that has the key stays
    as it is, a record that lacks it gets [problemType: 'code'] as its last
    field, after all the fields it had. *)
Theorem transform_maps_set_default (records : list dict) :
  transform (collection records) = ret (collection (map set_default records))
  /\ Forall2 (fun r r' =>
                (dict_has r problemType = true /\ r' = r)
                \/ (dict_has r problemType = false
                    /\ r' = r ++ [(problemType, JStr code)]
                    /\ keys r' = keys r ++ [problemType]))
       records (map set_default records).
Proof.
  split.
  - unfold collection, transform. now rewrite for_each_set_default.
  - induction records as [|r records IH]; cbn [map]; constructor;
      [|assumption].
    unfold set_default. destruct (dict_has r problemType); [now left|].
    right. split; [reflexivity|]. split; [reflexivity|].
    unfold keys. now rewrite map_app.
Qed.

(** X2 (every record ends with the key).  The loop gets through every
    collection of records, and every record of the result has the key
    [problemType]. *)
Theorem every_record_has_the_key (records : list dict) :
  exists out,
    transform (collection records) = ret (collection out)
    /\ Forall (fun r' => dict_has r' problemType = true) out.
Proof.
  exists (map set_default records). split.
  - unfold collection, transform. now rewrite for_each_set_default.
  - apply Forall_map, Forall_forall. intros r _. apply set_default_has.
Qed.

(** The body on anything but a record: it is let through as it is, or the
    body raises. *)
Lemma loop_body_not_dict (x x' : json) :
  is_dict x = false -> loop_body x = ret x' -> x' = x.
Proof.
  unfold loop_body.
  destruct x as [| b | n | f | s | items | members]; cbn [py_in bind ret];
    try discriminate; intros _.
  - destruct (str_contains s problemType); cbn [negb py_setitem];
      [now intros [= <-] | discriminate].
  - destruct (existsb _ items); cbn [negb py_setitem];
      [now intros [= <-] | discriminate].
Qed.

Lemma loop_body_dict_inv (r : dict) (x' : json) :
  loop_body (JDict r) = ret x' -> x' = JDict (set_default r).
Proof. rewrite loop_body_set_default. now intros [= <-]. Qed.

(** X3 (lists of any elements, other containers).  When the loop gets
    through a [list], the result is a [list] of the same length in which
    every record is the input record with the default set, every element
    that is not a record is the input element itself, and every element
    answers [True] to ['problemType' in p].  When it gets through a
    document that is not a [list], the result is that document. *)
Theorem transform_result_shape (problems problems' : json) :
  transform problems = ret problems' ->
  match problems with
  | JList items =>
      exists items',
        problems' = JList items'
        /\ List.length items' = List.length items
        /\ Forall2 (fun x x' =>
                      match x with
                      | JDict r => x' = JDict (set_default r)
                      | _ => x' = x
                      end) items items'
        /\ Forall (fun x' => py_in problemType x' = ret true) items'
  | _ => problems' = problems
  end.
Proof.
  destruct problems as [| b | n | f | s | items | members];
    cbn [transform py_iter bind ret raise]; try discriminate.
  - destruct (for_each _ _); [discriminate | now intros [= <-]].
  - destruct (for_each loop_body items) as [e|items'] eqn:E; [discriminate|].
    intros [= <-]. exists items'. split; [reflexivity|].
    split; [exact (for_each_length _ _ _ E)|].
    apply for_each_Forall2 in E. split.
    + revert E. apply Forall2_impl. intros x x' Hx.
      destruct x; try (now apply loop_body_not_dict);
        now apply loop_body_dict_inv.
    + induction E as [|x x' xs xs' Hx _ IH]; constructor; [|assumption].
      exact (loop_body_present _ _ Hx).
  - destruct (for_each _ _); [discriminate | now intros [= <-]].
Qed.

Lemma transform_result_shape_witness :
  transform (JList mixed_items) = ret (JList mixed_items_done)
  /\ exists items',
       JList mixed_items_done = JList items'
       /\ List.length items' = List.length mixed_items
       /\ Forall2 (fun x x' =>
                     match x with
                     | JDict r => x' = JDict (set_default r)
                     | _ => x' = x
                     end) mixed_items items'
       /\ Forall (fun x' => py_in problemType x' = ret true) items'.
Proof.
  split; [reflexivity|].
  apply (transform_result_shape (JList mixed_items) (JList mixed_items_done)).
  reflexivity.
Defined.

(** *** Which documents the loop raises on *)

Lemma loop_body_accepts (p : json) :
  if accepts p then exists p', loop_body p = ret p'
  else loop_body p = raise TypeError.
Proof.
  unfold loop_body.
  destruct p as [| b | n | f | s | items | members];
    cbn [accepts py_in bind ret raise]; try reflexivity.
  - destruct (str_contains s problemType); cbn [negb py_setitem];
      [now eexists | reflexivity].
  - destruct (existsb _ items); cbn [negb py_setitem];
      [now eexists | reflexivity].
  - destruct (negb _); cbn [py_setitem]; now eexists.
Qed.

Lemma for_each_accepts (xs : list json) :
  if forallb accepts xs then exists ys, for_each loop_body xs = ret ys
  else for_each loop_body xs = raise TypeError.
Proof.
  induction xs as [|x xs IH]; cbn [forallb for_each]; [now eexists|].
  pose proof (loop_body_accepts x) as Hx.
  destruct (accepts x); cbn [andb].
  - destruct Hx as [x' ->]. cbn [bind ret].
    destruct (forallb accepts xs).
    + destruct IH as [ys ->]. now eexists.
    + now rewrite IH.
  - now rewrite Hx.
Qed.

Lemma transform_accepts (problems : json) :
  if loop_accepts problems then exists p', transform problems = ret p'
  else transform problems = raise TypeError.
Proof.
  unfold loop_accepts.
  destruct problems as [| b | n | f | s | items | members];
    cbn [transform py_iter bind ret raise]; try reflexivity.
  - pose proof (for_each_accepts (map (fun c => JStr [c]) s)) as H.
    destruct (forallb _ _); [destruct H as [ys ->]; now eexists|].
    now rewrite H.
  - pose proof (for_each_accepts items) as H.
    destruct (forallb _ _); [destruct H as [ys ->]; now eexists|].
    now rewrite H.
  - pose proof (for_each_accepts (map (fun kv => JStr (fst kv)) members))
      as H.
    destruct (forallb _ _); [destruct H as [ys ->]; now eexists|].
    now rewrite H.
Qed.

Lemma single_char_lacks_problemType (c : char) :
  str_contains [c] problemType = false.
Proof.
  cbn. now rewrite andb_false_r.
Qed.

(** X4 (which documents the loop raises on).  The loop gets through a
    document exactly when the document can be iterated and each of its
    elements is a [dict], a [list] holding the string ['problemType'] or a
    [str] containing it; on every other document it raises [TypeError].
    So the only [str] it gets through is the empty one, and a [dict] only
    when all its keys contain [problemType]. *)
Theorem loop_raises_iff_shape (problems : json) :
  ((exists problems', transform problems = ret problems')
   <-> loop_accepts problems = true)
  /\ (transform problems = raise TypeError
      <-> loop_accepts problems = false)
  /\ (forall s, loop_accepts (JStr s) = true <-> s = [])
  /\ (forall members,
         loop_accepts (JDict members)
         = forallb (fun kv => str_contains (fst kv) problemType) members).
Proof.
  pose proof (transform_accepts problems) as H.
  split; [|split; [|split]].
  - destruct (loop_accepts problems).
    + split; [reflexivity | now intros _].
    + split; [|discriminate]. intros [p' Hp']. rewrite H in Hp'.
      discriminate.
  - destruct (loop_accepts problems).
    + split; [|discriminate]. destruct H as [p' ->]. discriminate.
    + split; [reflexivity | now intros _].
  - intros s. unfold loop_accepts. cbn [py_iter ret].
    destruct s as [|c s]; [now split|].
    cbn [map forallb accepts]. rewrite single_char_lacks_problemType.
    split; discriminate.
  - intros members. unfold loop_accepts. cbn [py_iter ret].
    induction members as [|kv members IH]; [reflexivity|].
    cbn [map forallb accepts]. now rewrite IH.
Qed.

(** X5 (when the loop changes nothing).  The loop returns a collection of
    records as it found it exactly when every record already has the key
    [problemType]. *)
Theorem transform_noop_iff (records : list dict) :
  transform (collection records) = ret (collection records)
  <-> Forall (fun r => dict_has r problemType = true) records.
Proof.
  unfold collection, transform. rewrite for_each_set_default.
  cbn [bind ret]. split.
  - intros [= H]. apply map_JDict_inj in H.
    induction records as [|r records IH]; constructor.
    + cbn [map] in H. injection H as Hr _. unfold set_default in Hr.
      destruct (dict_has r problemType); [reflexivity|].
      apply (f_equal (@List.length _)) in Hr.
      rewrite length_app in Hr. cbn [List.length] in Hr. lia.
    + apply IH. cbn [map] in H. now injection H.
  - intros H. do 3 f_equal.
    induction H as [|r records Hr _ IH]; [reflexivity|].
    cbn [map]. rewrite IH. unfold set_default. now rewrite Hr.
Qed.

Lemma dict_has_false_keys (r : dict) (k : str) :
  dict_has r k = false <-> ~ In k (keys r).
Proof.
  rewrite <- dict_has_keys. destruct (dict_has r k); split; congruence.
Qed.

(** X6 (keys stay distinct).  When the keys of every record of a collection
    are distinct, as the keys of a [dict] are, so are the keys of every
    record of the result. *)
Theorem distinct_keys_kept (records : list dict) :
  Forall (fun r => NoDup (keys r)) records ->
  exists out,
    transform (collection records) = ret (collection out)
    /\ Forall (fun r' => NoDup (keys r')) out.
Proof.
  intros H. exists (map set_default records). split.
  - unfold collection, transform. now rewrite for_each_set_default.
  - apply Forall_map. revert H. apply Forall_impl. intros r Hr.
    unfold set_default. destruct (dict_has r problemType) eqn:E;
      [assumption|].
    unfold keys. rewrite map_app. cbn [map fst].
    apply NoDup_app; [assumption | repeat constructor; auto |].
    intros k Hk [<-|[]]. now apply dict_has_false_keys in E.
Qed.

Lemma distinct_keys_kept_witness :
  Forall (fun r => NoDup (keys r)) two_records
  /\ exists out,
       transform (collection two_records) = ret (collection out)
       /\ Forall (fun r' => NoDup (keys r')) out.
Proof.
  assert (H : Forall (fun r => NoDup (keys r)) two_records).
  { repeat constructor; cbn; intuition discriminate. }
  split; [exact H|]. exact (distinct_keys_kept two_records H).
Defined.

(* ------------------------------------------------------------------------- *)
(** ** Further properties of the run *)

(** A second pass over what the loop returned returns it again. *)
Lemma transform_twice (problems problems' : json) :
  transform problems = ret problems' -> transform problems' = ret problems'.
Proof.
  destruct problems as [| b | n | f | s | items | members];
    cbn [transform py_iter bind ret raise]; try discriminate.
  - destruct (for_each _ _) as [e|ys] eqn:E; [discriminate|].
    intros [= <-]. cbn [transform py_iter bind ret]. now rewrite E.
  - destruct (for_each loop_body items) as [e|ys] eqn:E; [discriminate|].
    intros [= <-]. cbn [transform bind].
    now rewrite (for_each_twice _ _ E).
  - destruct (for_each _ _) as [e|ys] eqn:E; [discriminate|].
    intros [= <-]. cbn [transform py_iter bind ret]. now rewrite E.
Qed.

Section MoreRun.

Variable json_load : str -> option json.

(** X7 (what a failed run leaves).  Whatever exception ends the run,
    nothing has been printed.  When the exception comes before the writing
    block (the reading, the decoding, the loop) or from the [open] of the
    writing block, the file holds what it held.  When the writing is
    interrupted, what the file held is lost: it holds the part of the new
    text that got written, and no more. *)
Theorem failed_run_effects (w w' : world) (e : exn) :
  script json_load w = (raise e, w') ->
  stdout w' = stdout w
  /\ (e <> OSError ModeW \/ cut w = None -> w' = w)
  /\ (forall n,
        e = OSError ModeW -> cut w = Some n ->
        exists content problems problems',
          file w = Some content
          /\ json_load content = Some problems
          /\ transform problems = ret problems'
          /\ file w' = Some (firstn n (json_dumps 4 problems'))).
Proof.
  intros H. split; [|split].
  - revert H. rewrite script_unfold.
    destruct (file w) as [content|]; [|now intros [= _ <-]].
    destruct (json_load content) as [problems|]; [|now intros [= _ <-]].
    destruct (transform problems) as [e'|problems']; [now intros [= _ <-]|].
    destruct (writable w); [discriminate|].
    destruct (cut w); now intros [= _ <-].
  - exact (script_raises json_load w w' e H).
  - intros n -> Hcut. revert H. rewrite script_unfold, Hcut.
    destruct (file w) as [content|] eqn:F; [|discriminate].
    destruct (json_load content) as [problems|] eqn:L; [|discriminate].
    destruct (transform problems) as [e'|problems'] eqn:T.
    + apply transform_raises in T. subst e'. discriminate.
    + destruct (writable w); [discriminate|].
      intros H. injection H as <-.
      exists content, problems, problems'. now repeat split.
Qed.

(** X8 (when the run completes).  The run completes exactly when the file
    can be read, its text decodes, the loop gets through the document and
    the file can be written: the [open] for writing succeeds and so does
    all the writing. *)
Theorem run_completes_iff (w : world) :
  fst (script json_load w) = ret tt
  <-> exists content problems,
        file w = Some content
        /\ json_load content = Some problems
        /\ loop_accepts problems = true
        /\ writable w = true.
Proof.
  rewrite script_outcome. split.
  - destruct (file w) as [content|]; [|discriminate].
    destruct (json_load content) as [problems|] eqn:L; [|discriminate].
    pose proof (transform_accepts problems) as Ha.
    destruct (transform problems) as [e|problems'] eqn:E; [discriminate|].
    destruct (writable w); [|discriminate].
    intros _. exists content, problems. repeat split; [assumption|].
    destruct (loop_accepts problems); [reflexivity | discriminate].
  - intros [content [problems [-> [-> [Ha ->]]]]].
    pose proof (transform_accepts problems) as Ht. rewrite Ha in Ht.
    destruct Ht as [problems' ->]. reflexivity.
Qed.

(** X9 (which exception, when).  The run raises from the reading block
    exactly when the file cannot be read; [TypeError] exactly when the text
    decodes to a document the loop does not get through; from the writing
    block exactly when the loop got through and the file cannot be
    written. *)
Theorem exception_iff (w : world) :
  (fst (script json_load w) = raise (OSError ModeR) <-> file w = None)
  /\ (fst (script json_load w) = raise TypeError
      <-> exists content problems,
            file w = Some content
            /\ json_load content = Some problems
            /\ loop_accepts problems = false)
  /\ (fst (script json_load w) = raise (OSError ModeW)
      <-> exists content problems,
            file w = Some content
            /\ json_load content = Some problems
            /\ loop_accepts problems = true
            /\ writable w = false).
Proof.
  rewrite script_outcome.
  destruct (file w) as [content|].
  - destruct (json_load content) as [problems|] eqn:L.
    + pose proof (transform_accepts problems) as Ha.
      destruct (loop_accepts problems) eqn:A.
      * destruct Ha as [problems' ->].
        destruct (writable w) eqn:W; cbn [fst print].
        -- repeat split; try discriminate.
           ++ intros [c [p [[= <-] [H1 H2]]]]. congruence.
           ++ intros [c [p [_ [_ [_ H]]]]]. discriminate.
        -- repeat split; try discriminate.
           ++ intros [c [p [[= <-] [H1 H2]]]]. congruence.
           ++ intros _. now exists content, problems.
      * rewrite Ha. cbn [fst]. repeat split; try discriminate.
        -- intros _. now exists content, problems.
        -- intros [c [p [[= <-] [H1 [H2 _]]]]]. congruence.
    + cbn [fst]. repeat split; try discriminate.
      * intros [c [p [[= <-] [H _]]]]. congruence.
      * intros [c [p [[= <-] [H _]]]]. congruence.
  - cbn [fst]. repeat split; try discriminate.
    + intros [c [p [H _]]]. discriminate.
    + intros [c [p [H _]]]. discriminate.
Qed.

(** X10 (the count, for any document).  Whatever the document, when the
    run completes the number it prints is the length of the document as it
    was loaded: the number of elements of a [list], of keys of a [dict].
    The loop never changes that length. *)
Theorem report_counts_loaded_document (w w' : world) :
  script json_load w = (ret tt, w') ->
  exists content problems n,
    file w = Some content
    /\ json_load content = Some problems
    /\ py_len problems = ret n
    /\ stdout w' = stdout w ++ report n ++ [newline].
Proof.
  rewrite script_unfold.
  destruct (file w) as [content|]; [|discriminate].
  destruct (json_load content) as [problems|] eqn:L; [|discriminate].
  destruct (transform problems) as [e|problems'] eqn:E; [discriminate|].
  destruct (writable w); [|destruct (cut w); discriminate].
  destruct (transform_len _ _ E) as [n [Hn' Hn]]. unfold ret in Hn'.
  rewrite Hn'. intros [= <-].
  exists content, problems, n. now repeat split.
Qed.

(** X11 (a second run).  When the decoder reads back the document the
    first run wrote, a second run completes too, writes the same text
    again and prints the same line. *)
Theorem second_run_changes_nothing (w : world) (content : str)
    (problems problems' : json) :
  file w = Some content ->
  json_load content = Some problems ->
  transform problems = ret problems' ->
  writable w = true ->
  json_load (json_dumps 4 problems') = Some problems' ->
  exists w1 w2 line,
    script json_load w = (ret tt, w1)
    /\ script json_load w1 = (ret tt, w2)
    /\ file w2 = file w1
    /\ stdout w1 = stdout w ++ line
    /\ stdout w2 = stdout w1 ++ line.
Proof.
  intros Hf Hl Ht Hw Hback.
  destruct (transform_len _ _ Ht) as [n [Hn _]].
  pose proof (script_completes json_load w content _ _ n Hf Hl Ht Hn Hw)
    as H1.
  eexists. eexists. exists (report n ++ [newline]).
  split; [exact H1|]. split.
  - apply (script_completes json_load _ (json_dumps 4 problems') problems'
             problems' n);
      [reflexivity | assumption | now apply transform_twice with problems
      | assumption | reflexivity].
  - now repeat split.
Qed.

(** X12 (the run on a collection).  On a file that holds a collection of
    records and can be written, [open] and writing both, the run ends with the file holding the
    encoding, with indent 4, of the records with their defaults set, and
    with one more line printed, which gives their number. *)
Theorem run_on_collection (w : world) (content : str)
    (records : list dict) :
  file w = Some content ->
  json_load content = Some (collection records) ->
  writable w = true ->
  script json_load w
  = (ret tt,
     {| file := Some (json_dumps 4 (collection (map set_default records)));
        writable := true;
        cut := cut w;
        stdout := stdout w ++ report (List.length records) ++ [newline] |}).
Proof.
  intros Hf Hl Hw.
  apply (script_completes json_load w content (collection records));
    try assumption.
  - unfold collection, transform. now rewrite for_each_set_default.
  - unfold collection. cbn [py_len]. now rewrite !length_map.
Qed.

End MoreRun.

Lemma failed_run_effects_witness :
  script reference_load (failing_world scenario_1 7)
  = (raise (OSError ModeW),
     {| file := Some (text "[
    {");
        writable := false;
        cut := Some 7;
        stdout := [] |})
  /\ stdout {| file := Some (text "[
    {");
               writable := false;
               cut := Some 7;
               stdout := [] |}
     = stdout (failing_world scenario_1 7)
  /\ (OSError ModeW <> OSError ModeW
      \/ cut (failing_world scenario_1 7) = None ->
      {| file := Some (text "[
    {");
         writable := false;
         cut := Some 7;
         stdout := [] |}
      = failing_world scenario_1 7)
  /\ (forall n,
        OSError ModeW = OSError ModeW ->
        cut (failing_world scenario_1 7) = Some n ->
        exists content problems problems',
          file (failing_world scenario_1 7) = Some content
          /\ reference_load content = Some problems
          /\ transform problems = ret problems'
          /\ file {| file := Some (text "[
    {");
                     writable := false;
                     cut := Some 7;
                     stdout := [] |}
             = Some (firstn n (json_dumps 4 problems'))).
Proof.
  assert (H : script reference_load (failing_world scenario_1 7)
              = (raise (OSError ModeW),
                 {| file := Some (text "[
    {");
                    writable := false;
                    cut := Some 7;
                    stdout := [] |}))
    by (vm_compute; reflexivity).
  split; [exact H|].
  exact (failed_run_effects reference_load _ _ _ H).
Defined.

Lemma report_counts_loaded_document_witness :
  script reference_load (world_of (text "{'my problemType': 1}"))
  = (ret tt,
     {| file := Some (json_dumps 4 (JDict [(lit "my problemType", JInt 1)]));
        writable := true;
        cut := None;
        stdout := report 1 ++ [newline] |})
  /\ exists content problems n,
       file (world_of (text "{'my problemType': 1}")) = Some content
       /\ reference_load content = Some problems
       /\ py_len problems = ret n
       /\ stdout {| file := Some (json_dumps 4
                                    (JDict [(lit "my problemType", JInt 1)]));
                    writable := true;
                    cut := None;
                    stdout := report 1 ++ [newline] |}
          = stdout (world_of (text "{'my problemType': 1}"))
            ++ report n ++ [newline].
Proof.
  split; [vm_compute; reflexivity|].
  apply (report_counts_loaded_document reference_load).
  vm_compute. reflexivity.
Defined.

Lemma second_run_changes_nothing_witness :
  file (world_of scenario_1) = Some scenario_1
  /\ reference_load scenario_1 = Some (collection two_records)
  /\ transform (collection two_records) = ret (collection two_records_done)
  /\ writable (world_of scenario_1) = true
  /\ reference_load (json_dumps 4 (collection two_records_done))
     = Some (collection two_records_done)
  /\ exists w1 w2 line,
       script reference_load (world_of scenario_1) = (ret tt, w1)
       /\ script reference_load w1 = (ret tt, w2)
       /\ file w2 = file w1
       /\ stdout w1 = stdout (world_of scenario_1) ++ line
       /\ stdout w2 = stdout w1 ++ line.
Proof.
  split; [reflexivity|]. split; [vm_compute; reflexivity|].
  split; [reflexivity|]. split; [reflexivity|].
  split; [vm_compute; reflexivity|].
  apply (second_run_changes_nothing reference_load (world_of scenario_1)
           scenario_1 (collection two_records)
           (collection two_records_done));
    [reflexivity | vm_compute; reflexivity | reflexivity | reflexivity
    | vm_compute; reflexivity].
Defined.

Lemma run_on_collection_witness :
  file (world_of scenario_1) = Some scenario_1
  /\ reference_load scenario_1 = Some (collection two_records)
  /\ writable (world_of scenario_1) = true
  /\ script reference_load (world_of scenario_1)
     = (ret tt,
        {| file := Some (json_dumps 4
                           (collection (map set_default two_records)));
           writable := true;
           cut := None;
           stdout := stdout (world_of scenario_1)
                     ++ report (List.length two_records) ++ [newline] |}).
Proof.
  split; [reflexivity|]. split; [vm_compute; reflexivity|].
  split; [reflexivity|].
  apply (run_on_collection reference_load (world_of scenario_1) scenario_1
           two_records); [reflexivity | vm_compute; reflexivity | reflexivity].
Defined.

(* ------------------------------------------------------------------------- *)
(** ** Further properties of the written text *)

Lemma plain_printable (c : char) :
  (32 <= c <= 126)%N -> plain_ascii c = true.
Proof.
  intros [Hlo Hhi]. unfold plain_ascii.
  apply orb_true_iff. right. apply andb_true_iff.
  split; now apply N.leb_le.
Qed.

Lemma all_plain_app (a b : str) :
  all_plain a -> all_plain b -> all_plain (a ++ b).
Proof. intros Ha Hb. apply Forall_app. now split. Qed.

Lemma all_plain_lit_digits (d : Decimal.uint) : all_plain (uint_digits d).
Proof. induction d; cbn [uint_digits]; now constructor. Qed.

Lemma all_plain_int (i : Decimal.int) : all_plain (int_digits i).
Proof.
  destruct i; cbn [int_digits]; [|constructor; [reflexivity|]];
    apply all_plain_lit_digits.
Qed.

Lemma all_plain_floatstr (f : pyfloat) : all_plain (floatstr f).
Proof.
  assert (Hfrac : forall u, all_plain (fraction u)).
  { intros u. pose proof (all_plain_lit_digits u) as Hu.
    destruct u; cbn [fraction]; try constructor; try reflexivity;
      exact Hu. }
  assert (Hexp : forall e, all_plain (exponent e)).
  { intros [u|u]; cbn [exponent]; (apply all_plain_app;
      [repeat constructor | apply all_plain_lit_digits]). }
  destruct f as [|[|]|[i u|i u e]]; cbn [floatstr];
    try (repeat constructor).
  - apply all_plain_app; [apply all_plain_int | apply Hfrac].
  - apply all_plain_app; [apply all_plain_int|].
    apply all_plain_app; [apply Hfrac | apply Hexp].
Qed.

Lemma hex_digit_plain (n : N) : plain_ascii (hex_digit (N.land n 15)) = true.
Proof.
  assert (H : (N.land n 15 < 16)%N).
  { change 15%N with (N.ones 4). rewrite N.land_ones.
    now apply N.mod_lt. }
  apply plain_printable. unfold hex_digit.
  destruct (N.ltb_spec (N.land n 15) 10); lia.
Qed.

Lemma all_plain_unicode_escape (n : N) : all_plain (unicode_escape n).
Proof.
  unfold unicode_escape, hex4.
  apply all_plain_app; [repeat constructor|].
  repeat constructor; apply hex_digit_plain.
Qed.

Lemma all_plain_escape_char (c : char) : all_plain (escape_char c).
Proof.
  unfold escape_char.
  repeat match goal with
         | |- context [if ?b then _ else _] => destruct b eqn:?
         end;
    lazymatch goal with
    | |- all_plain [c] =>
        constructor; [|constructor];
        match goal with
        | E : (_ && _) = true |- _ =>
            apply andb_true_iff in E as [E1 E2];
            apply N.leb_le in E1, E2
        end;
        now apply plain_printable
    | |- all_plain (unicode_escape _) => apply all_plain_unicode_escape
    | |- all_plain (_ ++ _) =>
        apply all_plain_app; apply all_plain_unicode_escape
    | |- _ => repeat constructor
    end.
Qed.

Lemma all_plain_basestring (s : str) : all_plain (encode_basestring_ascii s).
Proof.
  unfold encode_basestring_ascii. constructor; [reflexivity|].
  apply all_plain_app; [|repeat constructor].
  induction s as [|c s IH]; cbn [flat_map]; [constructor|].
  apply all_plain_app; [apply all_plain_escape_char | assumption].
Qed.

Lemma all_plain_newline_indent (indent level : nat) :
  all_plain (newline_indent indent level).
Proof.
  unfold newline_indent. constructor; [reflexivity|].
  apply Forall_forall. intros c Hc. apply repeat_spec in Hc. now subst.
Qed.

Lemma all_plain_join (sep : str) (chunks : list str) :
  all_plain sep -> Forall all_plain chunks -> all_plain (join sep chunks).
Proof.
  intros Hsep. induction 1 as [|c rest Hc Hrest IH]; [constructor|].
  cbn [join]. destruct rest as [|c' rest]; [assumption|].
  apply all_plain_app; [assumption|].
  apply all_plain_app; assumption.
Qed.

Lemma all_plain_encode (indent : nat) (o : json) :
  forall level, all_plain (encode indent level o).
Proof.
  assert (Hsep : forall level,
             all_plain (lit "," ++ newline_indent indent level)).
  { intros level. apply all_plain_app; [repeat constructor|].
    apply all_plain_newline_indent. }
  induction o as [| b | n | f | s | items IH | members IH] using json_ind;
    intros level.
  - repeat constructor.
  - destruct b; repeat constructor.
  - apply all_plain_int.
  - apply all_plain_floatstr.
  - apply all_plain_basestring.
  - destruct items as [|x xs]; [repeat constructor|].
    rewrite encode_list.
    apply all_plain_app; [repeat constructor|].
    apply all_plain_app; [apply all_plain_newline_indent|].
    apply all_plain_app;
      [|apply all_plain_app;
         [apply all_plain_newline_indent | repeat constructor]].
    apply all_plain_join; [apply Hsep|].
    apply Forall_map. revert IH. apply Forall_impl. intros y Hy. apply Hy.
  - destruct members as [|kv members]; [repeat constructor|].
    rewrite encode_dict.
    apply all_plain_app; [repeat constructor|].
    apply all_plain_app; [apply all_plain_newline_indent|].
    apply all_plain_app;
      [|apply all_plain_app;
         [apply all_plain_newline_indent | repeat constructor]].
    apply all_plain_join; [apply Hsep|].
    apply Forall_map. revert IH. apply Forall_impl. intros [k v] Hv.
    cbn [fst snd] in *.
    apply all_plain_app; [apply all_plain_basestring|].
    apply all_plain_app; [repeat constructor | apply Hv].
Qed.

(** X13 (plain ASCII).  Whatever the document holds, the text written for
    it is made of printable ASCII characters and line feeds only: every
    other character of a string is written as an escape. *)
Theorem dumps_is_plain_ascii (indent : nat) (o : json) :
  Forall (fun c => plain_ascii c = true) (json_dumps indent o).
Proof. apply all_plain_encode. Qed.

(** *** One level deeper, [indent] more spaces *)

Lemma shift_app (n : nat) (a b : str) :
  shift n (a ++ b) = shift n a ++ shift n b.
Proof.
  induction a as [|c a IH]; [reflexivity|].
  cbn [Datatypes.app shift]. destruct (N.eqb c newline); rewrite IH.
  - cbn [Datatypes.app]. now rewrite app_assoc.
  - reflexivity.
Qed.

Lemma shift_one_line (n : nat) (s : str) : ~ In newline s -> shift n s = s.
Proof.
  induction s as [|c s IH]; [reflexivity|]. intros H. cbn [shift].
  destruct (N.eqb_spec c newline) as [->|_].
  - exfalso. apply H. now left.
  - f_equal. apply IH. intros Hin. apply H. now right.
Qed.

Lemma shift_newline_indent (indent level : nat) :
  shift indent (newline_indent indent level)
  = newline_indent indent (S level).
Proof.
  unfold newline_indent. cbn [shift]. rewrite N.eqb_refl.
  rewrite (shift_one_line _ _ (repeat_space_one_line _)).
  rewrite <- repeat_app. do 2 f_equal. lia.
Qed.

Lemma shift_join (n : nat) (sep : str) (chunks : list str) :
  shift n (join sep chunks) = join (shift n sep) (map (shift n) chunks).
Proof.
  induction chunks as [|c rest IH]; [reflexivity|].
  cbn [join map]. destruct rest as [|c' rest]; [reflexivity|].
  rewrite !shift_app. cbn [map] in IH. now rewrite IH.
Qed.

Lemma shift_separator (indent level : nat) :
  shift indent (lit "," ++ newline_indent indent level)
  = lit "," ++ newline_indent indent (S level).
Proof.
  rewrite shift_app, shift_newline_indent. reflexivity.
Qed.

Lemma shift_basestring (n : nat) (s : str) :
  shift n (encode_basestring_ascii s) = encode_basestring_ascii s.
Proof.
  apply shift_one_line. intros H.
  unfold encode_basestring_ascii in H.
  destruct H as [H|H]; [discriminate|].
  apply in_app_or in H as [H|[H|[]]]; [|discriminate].
  apply in_flat_map in H as [c [_ H]].
  now apply escape_char_one_line in H.
Qed.

(** X14 (one level deeper).  The text of a document that sits one container
    deeper is the same text with [indent] more spaces at the start of every
    line but the first. *)
Theorem nesting_shifts_by_indent (indent : nat) (o : json) :
  forall level,
    encode indent (S level) o = shift indent (encode indent level o).
Proof.
  induction o as [| b | n | f | s | items IH | members IH] using json_ind;
    intros level.
  - reflexivity.
  - now destruct b.
  - cbn [encode]. symmetry. apply shift_one_line, int_digits_one_line.
  - cbn [encode]. symmetry. apply shift_one_line, floatstr_plain.
  - cbn [encode]. symmetry. apply shift_basestring.
  - destruct items as [|x xs]; [reflexivity|].
    rewrite !encode_list, !shift_app, !shift_newline_indent, shift_join.
    rewrite shift_separator, map_map.
    do 3 f_equal. f_equal.
    apply map_ext_Forall. revert IH. apply Forall_impl. intros y Hy.
    apply Hy.
  - destruct members as [|kv members]; [reflexivity|].
    rewrite !encode_dict, !shift_app, !shift_newline_indent, shift_join.
    rewrite shift_separator, map_map.
    do 3 f_equal. f_equal.
    apply map_ext_Forall. revert IH. apply Forall_impl. intros [k v] Hv.
    cbn [fst snd] in *.
    rewrite !shift_app, shift_basestring. do 2 f_equal. apply Hv.
Qed.

Lemma walk_multiples (indent a b : nat) (path : list nat) :
  walk indent a path b ->
  (exists k, a = indent * k) ->
  Forall (fun n => exists k, n = indent * k) path.
Proof.
  revert a. induction path as [|n path IH]; intros a; [constructor|].
  cbn [walk]. intros [Hstep Hwalk] [k Hk].
  assert (Hn : exists j, n = indent * j).
  { destruct Hstep as [->|[->|Ha]].
    - now exists k.
    - exists (S k). lia.
    - destruct k as [|k].
      + exists 0. lia.
      + exists k. lia. }
  constructor; [assumption|]. now apply IH with n.
Qed.

(** X15 (multiples of the indent).  Every line of the written text but the
    first starts with a number of spaces that is a multiple of the indent;
    with the script's indent, a multiple of 4. *)
Theorem lines_indented_by_multiples (indent : nat) (o : json) :
  Forall (fun n => exists k, n = indent * k)
    (indents (json_dumps indent o)).
Proof.
  destruct (encode_layout indent o 0) as [_ Hwalk].
  apply (walk_multiples indent _ _ _ Hwalk). exists 0. lia.
Qed.

(* ------------------------------------------------------------------------- *)
(** ** The operators of lines 11 and 12 *)

Lemma startswith_spec (hay prefix : str) :
  startswith hay prefix = true <-> exists post, hay = prefix ++ post.
Proof.
  revert hay. induction prefix as [|c prefix IH]; intros hay.
  - destruct hay; cbn [startswith];
      (split; [intros _; eexists; reflexivity | reflexivity]).
  - destruct hay as [|d hay]; cbn [startswith].
    + split; [discriminate | intros [post H]; discriminate].
    + rewrite andb_true_iff, N.eqb_eq, IH. split.
      * intros [-> [post ->]]. now exists post.
      * intros [post [= -> ->]]. eauto.
Qed.

(** X16 (['problemType' in p] on a string).  The test the script applies to
    a [str] is the substring test: it answers [True] exactly when the
    string is some text, then the needle, then some text, the empty needle
    being in every string. *)
Theorem str_contains_iff_substring (hay needle : str) :
  str_contains hay needle = true
  <-> exists pre post, hay = pre ++ needle ++ post.
Proof.
  induction hay as [|c hay IH]; cbn [str_contains].
  - rewrite orb_false_r, startswith_spec. split.
    + intros [post H]. now exists [], post.
    + intros [pre [post H]]. destruct pre as [|x pre]; [|discriminate].
      now exists post.
  - rewrite orb_true_iff, startswith_spec, IH. split.
    + intros [[post H]|[pre [post H]]].
      * now exists [], post.
      * exists (c :: pre), post. now rewrite H.
    + intros [[|x pre] [post H]].
      * left. now exists post.
      * right. injection H as -> H. now exists pre, post.
Qed.

(** X17 ([p[key] = value], then lookups).  After the assignment the key
    holds the value, every other key holds what it held, a key that was
    there keeps its place among the keys and a key that was not comes
    last. *)
Theorem dict_set_then_get (d : dict) (key : str) (value : json) :
  dict_get (dict_set d key value) key = Some value
  /\ (forall k, k <> key ->
                dict_get (dict_set d key value) k = dict_get d k)
  /\ keys (dict_set d key value)
     = if dict_has d key then keys d else keys d ++ [key].
Proof.
  split; [|split].
  - induction d as [|[k v] d IH]; cbn [dict_set dict_get].
    + now rewrite str_eqb_refl.
    + destruct (str_eqb key k) eqn:E; cbn [dict_get]; now rewrite E.
  - intros k' Hk'. induction d as [|[k v] d IH]; cbn [dict_set dict_get].
    + apply str_eqb_neq in Hk'. now rewrite Hk'.
    + destruct (str_eqb key k) eqn:E; cbn [dict_get].
      * apply str_eqb_eq in E. subst k.
        apply str_eqb_neq in Hk'. now rewrite Hk'.
      * now rewrite IH.
  - unfold keys, dict_has.
    induction d as [|[k v] d IH]; cbn [dict_set map existsb fst];
      [reflexivity|].
    destruct (str_eqb key k); cbn [map fst orb]; [reflexivity|].
    rewrite IH. now destruct (existsb _ d).
Qed.

(* ------------------------------------------------------------------------- *)
(** ** Reading back what was written *)

(** *** Escapes

    A hexadecimal digit of [n] is a quotient of [n] modulo 16. *)
Lemma nibble (n : N) (k : N) :
  N.land (N.shiftr n k) 15 = ((n / 2 ^ k) mod 16)%N.
Proof.
  change 15%N with (N.ones 4). now rewrite N.land_ones, N.shiftr_div_pow2.
Qed.

Lemma hex_value_hex_digit (d : N) :
  (d < 16)%N -> hex_value (hex_digit d) = Some d.
Proof.
  intros H. unfold hex_digit, hex_value, is_digit.
  destruct (N.ltb_spec d 10).
  - replace ((48 <=? 48 + d) && (48 + d <=? 57))%N with true.
    + f_equal. lia.
    + symmetry. apply andb_true_iff. split; apply N.leb_le; lia.
  - replace ((48 <=? 87 + d) && (87 + d <=? 57))%N with false.
    + replace ((97 <=? 87 + d) && (87 + d <=? 102))%N with true.
      * f_equal. lia.
      * symmetry. apply andb_true_iff. split; apply N.leb_le; lia.
    + symmetry. apply andb_false_iff. right. apply N.leb_gt. lia.
Qed.

(** [_decode_uXXXX] reads what ['{0:04x}'] wrote. *)
Lemma decode_hex4 (n : N) (rest : str) :
  (n < 65536)%N -> decode_uXXXX (hex4 n ++ rest) = Some (n, rest).
Proof.
  intros H. unfold hex4. cbn [Datatypes.app decode_uXXXX].
  rewrite !nibble. change 15%N with (N.ones 4). rewrite N.land_ones.
  change (2 ^ 4)%N with 16%N.
  rewrite !hex_value_hex_digit by (apply N.mod_lt; discriminate).
  f_equal. f_equal.
  change (2 ^ 12)%N with 4096%N. change (2 ^ 8)%N with 256%N.

  zify. Z.to_euclidean_division_equations. lia.
Qed.

Lemma lor_shiftl_low (a b k : N) :
  (b < 2 ^ k)%N -> N.lor (N.shiftl a k) b = (a * 2 ^ k + b)%N.
Proof.
  intros Hb.
  assert (H : N.land (N.shiftl a k) b = 0%N).
  { apply N.bits_inj. intros m. rewrite N.land_spec, N.bits_0.
    destruct (N.lt_ge_cases m k) as [Hm|Hm].
    - now rewrite N.shiftl_spec_low.
    - apply andb_false_iff. right.
      destruct (N.eq_dec b 0) as [->|Hz]; [apply N.bits_0|].
      apply N.bits_above_log2. apply N.log2_lt_pow2; [lia|].
      apply N.lt_le_trans with (2 ^ k)%N; [assumption|].
      apply N.pow_le_mono_r; [discriminate | assumption]. }
  rewrite <- N.lxor_lor, <- N.add_nocarry_lxor by assumption.
  now rewrite N.shiftl_mul_pow2.
Qed.

(** The pair written for a code point above the BMP is a high and a low
    surrogate, and combining them gives the code point. *)
Lemma surrogates_of (c : N) :
  (65536 <= c < 1114112)%N ->
  (55296 <= hi_of c <= 56319)%N /\ (56320 <= lo_of c <= 57343)%N
  /\ (65536 + N.lor (N.shiftl (hi_of c - 55296) 10) (lo_of c - 56320))%N = c.
Proof.
  intros Hc. unfold hi_of, lo_of.
  assert (Hn : (c - 65536 < 1048576)%N) by lia.
  assert (Hc' : c = (65536 + (c - 65536))%N) by lia.
  revert Hn Hc'. generalize (c - 65536)%N. intros n Hn Hc'.
  change 1023%N with (N.ones 10). rewrite !N.land_ones, N.shiftr_div_pow2.
  change (2 ^ 10)%N with 1024%N.
  assert (Ha : (n / 1024 < 1024)%N)
    by (apply N.Div0.div_lt_upper_bound; exact Hn).
  rewrite (N.mod_small (n / 1024) 1024) by assumption.
  assert (Hb : (n mod 1024 < 1024)%N) by (apply N.mod_lt; discriminate).
  pose proof (N.div_mod n 1024 ltac:(discriminate)) as Hdm.
  revert Ha Hb Hdm. generalize (n / 1024)%N (n mod 1024)%N.
  intros a b Ha Hb Hdm.
  change 55296%N with (N.shiftl 54 10). change 56320%N with (N.shiftl 55 10).
  rewrite !lor_shiftl_low by exact Ha || exact Hb.
  change (2 ^ 10)%N with 1024%N.
  replace (54 * 1024 + a - N.shiftl 54 10)%N with a
    by (change (N.shiftl 54 10) with 55296%N; lia).
  replace (55 * 1024 + b - N.shiftl 55 10)%N with b
    by (change (N.shiftl 55 10) with 56320%N; lia).
  rewrite lor_shiftl_low by exact Hb.
  change (2 ^ 10)%N with 1024%N.
  change (N.shiftl 54 10) with 55296%N. change (N.shiftl 55 10) with 56320%N.
  lia.
Qed.

Lemma scanstring_plain (k : nat) (c : char) (s1 : str) :
  N.eqb c 34 = false -> N.eqb c 92 = false -> (c <? 32)%N = false ->
  scanstring (S k) (c :: s1) = prepend c (scanstring k s1).
Proof.
  intros Hq Hb Hc. cbn [scanstring]. unfold quote, is_char.
  change (N_of_ascii "\") with 92%N. now rewrite Hq, Hb, Hc.
Qed.

Lemma scanstring_letter (k : nat) (esc c' : char) (s2 : str) :
  N.eqb esc 117 = false -> BACKSLASH esc = Some c' ->
  scanstring (S k) (92%N :: esc :: s2) = prepend c' (scanstring k s2).
Proof.
  intros Hu Hc. cbn [scanstring]. unfold is_char at 2.
  change (N_of_ascii "u") with 117%N. rewrite Hu, Hc. reflexivity.
Qed.

Lemma scanstring_single (k : nat) (uni : N) (s2 s3 : str) :
  decode_uXXXX s2 = Some (uni, s3) ->
  (if is_high_surrogate uni then low_surrogate_escape s3 else None) = None ->
  scanstring (S k) (92%N :: 117%N :: s2) = prepend uni (scanstring k s3).
Proof.
  intros Hd Hl. cbn [scanstring].
  change (N.eqb 92%N quote) with false.
  change (is_char "\" 92%N) with true.
  change (is_char "u" 117%N) with true. cbv iota. now rewrite Hd, Hl.
Qed.

Lemma scanstring_pair (k : nat) (uni uni2 : N) (s2 s3 s4 : str) :
  decode_uXXXX s2 = Some (uni, s3) ->
  is_high_surrogate uni = true ->
  low_surrogate_escape s3 = Some (uni2, s4) ->
  scanstring (S k) (92%N :: 117%N :: s2)
  = prepend (65536 + N.lor (N.shiftl (uni - 55296) 10) (uni2 - 56320))%N
      (scanstring k s4).
Proof.
  intros Hd Hh Hl. cbn [scanstring].
  change (N.eqb 92%N quote) with false.
  change (is_char "\" 92%N) with true.
  change (is_char "u" 117%N) with true. cbv iota. now rewrite Hd, Hh, Hl.
Qed.

Lemma unicode_escape_cons (n : N) (rest : str) :
  unicode_escape n ++ rest = 92%N :: 117%N :: hex4 n ++ rest.
Proof. reflexivity. Qed.

Lemma low_surrogate_escape_unicode (n : N) (rest : str) :
  (n < 65536)%N ->
  low_surrogate_escape (unicode_escape n ++ rest)
  = if is_low_surrogate n then Some (n, rest) else None.
Proof.
  intros H. rewrite unicode_escape_cons. cbn [low_surrogate_escape].
  change (is_char "\" 92%N && is_char "u" 117%N) with true. cbv iota.
  now rewrite decode_hex4.
Qed.

Lemma low_surrogate_escape_other (b : char) (rest : str) :
  N.eqb b 92 = false -> low_surrogate_escape (b :: rest) = None.
Proof.
  intros H. destruct rest as [|u rest]; [reflexivity|].
  cbn [low_surrogate_escape]. unfold is_char at 1.
  change (N_of_ascii "\") with 92%N. now rewrite H.
Qed.

Lemma low_surrogate_escape_letter (u : char) (rest : str) :
  N.eqb u 117 = false -> low_surrogate_escape (92%N :: u :: rest) = None.
Proof.
  intros H. cbn [low_surrogate_escape]. unfold is_char at 2.
  change (N_of_ascii "u") with 117%N. rewrite H.
  now rewrite andb_false_r.
Qed.

(** The four ways a character is written: a backslash and a letter, the
    character itself, one [\uXXXX] escape, two of them. *)
Lemma escape_char_cases (c : char) :
  (exists l, escape_char c = [92%N; l]
             /\ BACKSLASH l = Some c /\ N.eqb l 117 = false)
  \/ (escape_char c = [c]
      /\ N.eqb c 34 = false /\ N.eqb c 92 = false /\ (c <? 32)%N = false)
  \/ (escape_char c = unicode_escape c /\ (c < 65536)%N)
  \/ (escape_char c = unicode_escape (hi_of c) ++ unicode_escape (lo_of c)
      /\ (65536 <= c)%N).
Proof.
  unfold escape_char.
  destruct (N.eqb_spec c 92) as [->|H92]; [left; now exists 92%N|].
  destruct (N.eqb_spec c 34) as [->|H34]; [left; now exists 34%N|].
  destruct (N.eqb_spec c 8) as [->|H8]; [left; now exists 98%N|].
  destruct (N.eqb_spec c 12) as [->|H12]; [left; now exists 102%N|].
  destruct (N.eqb_spec c 10) as [->|H10]; [left; now exists 110%N|].
  destruct (N.eqb_spec c 13) as [->|H13]; [left; now exists 114%N|].
  destruct (N.eqb_spec c 9) as [->|H9]; [left; now exists 116%N|].
  destruct (N.leb_spec 32 c) as [Hlo|Hlo]; cbn [andb].
  - destruct (N.leb_spec c 126) as [Hhi|Hhi].
    + right. left. repeat split. now apply N.ltb_ge.
    + destruct (N.ltb_spec c 65536); right; right; [left | right];
        now split.
  - destruct (N.ltb_spec c 65536); right; right; [left | right];
      now split.
Qed.

Lemma low_after_char (d : char) (rest : str) :
  (d < 1114112)%N -> is_low_surrogate d = false ->
  low_surrogate_escape (escape_char d ++ rest) = None.
Proof.
  intros Hd Hlow.
  destruct (escape_char_cases d)
    as [[l [-> [_ Hl]]]|[[-> [_ [H92 _]]]|[[-> Hs]|[-> Hp]]]].
  - now apply low_surrogate_escape_letter.
  - now apply low_surrogate_escape_other.
  - rewrite low_surrogate_escape_unicode by assumption. now rewrite Hlow.
  - destruct (surrogates_of d ltac:(lia)) as [Hhi _].
    rewrite <- app_assoc, low_surrogate_escape_unicode by lia.
    replace (is_low_surrogate (hi_of d)) with false; [reflexivity|].
    symmetry. unfold is_low_surrogate. apply andb_false_iff. left.
    apply N.leb_gt. lia.
Qed.

(** One character, written and read. *)
Lemma scanstring_escape_char (k : nat) (c : char) (rest : str) :
  (c < 1114112)%N ->
  (is_high_surrogate c = true -> low_surrogate_escape rest = None) ->
  scanstring (S k) (escape_char c ++ rest) = prepend c (scanstring k rest).
Proof.
  intros Hc Hnext.
  destruct (escape_char_cases c)
    as [[l [-> [Hl Hu]]]|[[-> [H34 [H92 H32]]]|[[-> Hs]|[-> Hp]]]].
  - now apply scanstring_letter.
  - now apply scanstring_plain.
  - rewrite unicode_escape_cons.
    apply scanstring_single; [now apply decode_hex4|].
    destruct (is_high_surrogate c); [now apply Hnext | reflexivity].
  - destruct (surrogates_of c ltac:(lia)) as [Hhi [Hlo Hval]].
    rewrite <- app_assoc, unicode_escape_cons.
    rewrite (scanstring_pair k (hi_of c) (lo_of c) _
               (unicode_escape (lo_of c) ++ rest) rest).
    + now rewrite Hval.
    + apply decode_hex4. lia.
    + unfold is_high_surrogate. apply andb_true_iff.
      split; apply N.leb_le; lia.
    + rewrite low_surrogate_escape_unicode by lia.
      replace (is_low_surrogate (lo_of c)) with true; [reflexivity|].
      symmetry. unfold is_low_surrogate. apply andb_true_iff.
      split; apply N.leb_le; lia.
Qed.

(** A readable string, written and read: [py_scanstring] undoes
    [py_encode_basestring_ascii]. *)
Lemma scanstring_escaped (s : str) :
  forall (k : nat) (rest : str),
    text_ok s = true -> List.length s < k ->
    scanstring k (flat_map escape_char s ++ quote :: rest) = Some (s, rest).
Proof.
  induction s as [|c s IH]; intros k rest Hok Hk.
  - destruct k as [|k]; [inversion Hk | reflexivity].
  - destruct k as [|k]; [inversion Hk|].
    cbn [text_ok] in Hok.
    apply andb_true_iff in Hok as [Hok Hs].
    apply andb_true_iff in Hok as [Hc Hpair].
    apply N.ltb_lt in Hc.
    cbn [flat_map]. rewrite <- app_assoc.
    rewrite scanstring_escape_char; [|assumption|].
    + rewrite IH; [reflexivity | assumption | cbn [List.length] in Hk; lia].
    + intros Hhigh. rewrite Hhigh in Hpair. cbn [andb] in Hpair.
      destruct s as [|d s];
        [now apply (low_surrogate_escape_other quote)|].
      cbn [flat_map]. rewrite <- app_assoc.
      cbn [text_ok] in Hs.
      apply andb_true_iff in Hs as [Hs _].
      apply andb_true_iff in Hs as [Hd _]. apply N.ltb_lt in Hd.
      apply low_after_char; [assumption|].
      now destruct (is_low_surrogate d).
Qed.


(** *** Numbers *)

Lemma nzhead_head (u : Decimal.uint) :
  match Decimal.nzhead u with D0 _ => False | _ => True end.
Proof. induction u; cbn; auto. Qed.

(** The digits of a positive number do not start with a zero. *)
Lemma to_uint_head (p : positive) :
  match Pos.to_uint p with Nil | D0 _ => False | _ => True end.
Proof.
  pose proof (DecimalPos.Unsigned.to_of (Pos.to_uint p)) as H.
  rewrite DecimalPos.Unsigned.of_to in H. cbn [N.to_uint] in H.
  pose proof (DecimalPos.Unsigned.to_uint_nonzero p) as Hz.
  pose proof (nzhead_head (Pos.to_uint p)) as Hh.
  unfold Decimal.unorm in H.
  destruct (Decimal.nzhead (Pos.to_uint p)) eqn:E; try contradiction;
    try (rewrite H; exact I).
Qed.

Lemma digits_value_acc (d : Decimal.uint) (acc : positive) :
  fold_left (fun a c => (10 * a + (Z.of_N c - 48))%Z) (uint_digits d)
    (Z.pos acc)
  = Z.pos (Pos.of_uint_acc d acc).
Proof.
  revert acc. induction d; intros acc; cbn [uint_digits fold_left Pos.of_uint_acc];
    try reflexivity;
    match goal with
    | |- fold_left _ _ ?z = _ =>
        match goal with
        | |- _ = Z.pos (Pos.of_uint_acc _ ?q) =>
            replace z with (Z.pos q) by lia; apply IHd
        end
    end.
Qed.

Lemma digits_value_uint (d : Decimal.uint) :
  digits_value (uint_digits d) = Z.of_N (Pos.of_uint d).
Proof.
  unfold digits_value.
  induction d; cbn [uint_digits fold_left Pos.of_uint]; try reflexivity;
    try (match goal with
         | |- fold_left _ _ ?z = Z.of_N (N.pos (Pos.of_uint_acc _ ?q)) =>
             replace z with (Z.pos q) by lia; apply digits_value_acc
         end).
  replace (10 * 0 + (Z.of_N 48 - 48))%Z with 0%Z by lia. exact IHd.
Qed.

(** [int(str(p))] is [p]. *)
Lemma digits_value_pos (p : positive) :
  digits_value (uint_digits (Pos.to_uint p)) = Z.pos p.
Proof.
  now rewrite digits_value_uint, DecimalPos.Unsigned.of_to.
Qed.

Lemma uint_digits_are_digits (d : Decimal.uint) :
  Forall (fun c => is_digit c = true) (uint_digits d).
Proof. induction d; cbn [uint_digits]; constructor; auto. Qed.

Lemma stops_not_digit (rest : str) :
  stops rest = true ->
  match rest with
  | [] => True
  | c :: _ => is_digit c = false /\ is_char "." c = false
              /\ is_char "e" c = false /\ is_char "E" c = false
  end.
Proof.
  destruct rest as [|c rest]; [auto|]. cbn [stops].
  intros H. apply orb_true_iff in H as [H|H]; apply N.eqb_eq in H; subst c;
    repeat split.
Qed.

Lemma span_digits_all (ds rest : str) :
  Forall (fun c => is_digit c = true) ds ->
  stops rest = true ->
  span_digits (ds ++ rest) = (ds, rest).
Proof.
  intros Hds Hrest. induction Hds as [|c ds Hc _ IH].
  - cbn [Datatypes.app]. apply stops_not_digit in Hrest.
    destruct rest as [|c rest]; [reflexivity|].
    destruct Hrest as [Hd _]. cbn [span_digits]. now rewrite Hd.
  - cbn [Datatypes.app span_digits]. now rewrite Hc, IH.
Qed.

Lemma match_fraction_stops (rest : str) :
  stops rest = true -> match_fraction rest = ([], rest).
Proof.
  intros H. apply stops_not_digit in H.
  destruct rest as [|c rest]; [reflexivity|].
  destruct H as [_ [H _]]. cbn [match_fraction]. now rewrite H.
Qed.

Lemma match_exponent_stops (rest : str) :
  stops rest = true -> match_exponent rest = ([], rest).
Proof.
  intros H. apply stops_not_digit in H.
  destruct rest as [|c rest]; [reflexivity|].
  destruct H as [_ [_ [H1 H2]]]. cbn [match_exponent]. now rewrite H1, H2.
Qed.

Lemma digit_range (c : char) : is_digit c = true -> (48 <= c <= 57)%N.
Proof.
  unfold is_digit. intros H. apply andb_true_iff in H as [H1 H2].
  apply N.leb_le in H1, H2. now split.
Qed.

Lemma digit_not_minus (c : char) :
  is_digit c = true -> is_char "-" c = false.
Proof.
  intros Hc. apply digit_range in Hc. unfold is_char.
  change (N_of_ascii "-") with 45%N. apply N.eqb_neq. lia.
Qed.

Lemma match_integer_digits (c : char) (ds rest : str) :
  is_digit c = true -> N.eqb c 48 = false ->
  Forall (fun c => is_digit c = true) ds -> stops rest = true ->
  match_integer (c :: ds ++ rest) = Some (c :: ds, rest).
Proof.
  intros Hc Hz Hds Hrest.
  pose proof (digit_not_minus c Hc) as Hm.
  unfold match_integer. rewrite Hm.
  unfold is_char. change (N_of_ascii "0") with 48%N. rewrite Hz, Hc.
  now rewrite (span_digits_all _ _ Hds Hrest).
Qed.

Lemma to_uint_digits (p : positive) :
  exists c ds, uint_digits (Pos.to_uint p) = c :: ds
               /\ is_digit c = true /\ N.eqb c 48 = false
               /\ Forall (fun c => is_digit c = true) ds.
Proof.
  pose proof (to_uint_head p) as Hh.
  pose proof (uint_digits_are_digits (Pos.to_uint p)) as Hd.
  destruct (Pos.to_uint p) as [|u|u|u|u|u|u|u|u|u|u]; try contradiction;
    cbn [uint_digits] in *; inversion Hd as [|c ds Hc Hds]; subst;
    eexists; eexists; repeat split; assumption.
Qed.

Section Numbers.
Variable hook : str -> pyfloat.

Lemma digit_count_digits (ds : str) :
  Forall (fun c => is_digit c = true) ds -> digit_count ds = List.length ds.
Proof.
  unfold digit_count. induction 1 as [|c ds Hc _ IH]; [reflexivity|].
  cbn [filter]. rewrite Hc. cbn [List.length]. now rewrite IH.
Qed.

Lemma scan_number_after (integer rest : str) (z : Z) :
  stops rest = true -> parse_int integer = z ->
  Nat.leb (digit_count integer) int_max_str_digits = true ->
  match Some (integer, rest) with
  | Some (integer, s1) =>
      let (frac, s2) := match_fraction s1 in
      let (exp, s3) := match_exponent s2 in
      match frac, exp with
      | [], [] =>
          if Nat.leb (digit_count integer) int_max_str_digits
          then Some (JInt (parse_int integer), s3)
          else None
      | _, _ => Some (JFloat (hook (integer ++ frac ++ exp)), s3)
      end
  | None => None
  end = Some (JInt z, rest).
Proof.
  intros Hrest Hz Hlen. cbv beta iota.
  rewrite match_fraction_stops by assumption.
  rewrite match_exponent_stops by assumption. now rewrite Hlen, Hz.
Qed.

Lemma match_integer_minus (c : char) (ds rest : str) :
  is_digit c = true -> N.eqb c 48 = false ->
  Forall (fun c => is_digit c = true) ds -> stops rest = true ->
  match_integer (45%N :: c :: ds ++ rest) = Some (45%N :: c :: ds, rest).
Proof.
  intros Hc Hz Hds Hrest.
  unfold match_integer. change (is_char "-" 45%N) with true. cbv iota.
  unfold is_char. change (N_of_ascii "0") with 48%N. rewrite Hz, Hc.
  now rewrite (span_digits_all _ _ Hds Hrest).
Qed.

(** An [int], written and read. *)
Lemma scan_number_int (z : Z) (rest : str) :
  stops rest = true -> int_ok z = true ->
  scan_number hook (str_of_int z ++ rest) = Some (JInt z, rest).
Proof.
  intros Hrest Hok. unfold int_ok in Hok.
  unfold scan_number, str_of_int in *.
  destruct z as [|p|p]; cbn [Z.abs Z.to_int int_digits] in *.
  - change (uint_digits Decimal.zero) with [48%N].
    cbn [Datatypes.app].
    change (match_integer (48%N :: rest)) with (Some ([48%N], rest)).
    now apply scan_number_after.
  - destruct (to_uint_digits p) as [c [ds [E [Hc [Hz Hds]]]]].
    pose proof (digits_value_pos p) as Hv. rewrite E in *.
    cbn [Datatypes.app]. rewrite match_integer_digits by assumption.
    apply scan_number_after; [assumption| |].
    + unfold parse_int. now rewrite (digit_not_minus c Hc).
    + rewrite digit_count_digits; [assumption | now constructor].
  - destruct (to_uint_digits p) as [c [ds [E [Hc [Hz Hds]]]]].
    pose proof (digits_value_pos p) as Hv. rewrite E in *.
    unfold minus_sign. cbn [Datatypes.app].
    rewrite match_integer_minus by assumption.
    apply scan_number_after; [assumption| |].
    + unfold parse_int. change (is_char "-" 45%N) with true. cbv iota.
      now rewrite Hv.
    + change (digit_count (45%N :: c :: ds)) with (digit_count (c :: ds)).
      rewrite digit_count_digits; [assumption | now constructor].
Qed.

End Numbers.


(** *** How a value starts, and the whitespace before it *)

Lemma digit_value_head (c : char) :
  is_digit c = true -> value_head c = true.
Proof.
  intros H. apply digit_range in H. unfold value_head, is_whitespace, is_char.
  change (N_of_ascii "]") with 93%N.
  repeat match goal with
         | |- context [N.eqb c ?n] =>
             replace (N.eqb c n) with false
               by (symmetry; apply N.eqb_neq; lia)
         end.
  cbn [orb negb andb]. apply N.ltb_lt. lia.
Qed.

Lemma encode_value_head (indent level : nat) (o : json) :
  readable o = true ->
  exists c t, encode indent level o = c :: t /\ value_head c = true.
Proof.
  destruct o as [| b | n | f | s | items | members]; intros H.
  - now eexists; eexists.
  - destruct b; now eexists; eexists.
  - cbn [encode]. unfold str_of_int.
    destruct n as [|p|p]; cbn [Z.to_int int_digits].
    + now eexists; eexists.
    + destruct (to_uint_digits p) as [c [ds [E [Hc _]]]]. rewrite E.
      exists c, ds. split; [reflexivity | now apply digit_value_head].
    + now eexists; eexists.
  - destruct f as [|[|]|d]; try discriminate; now eexists; eexists.
  - now eexists; eexists.
  - destruct items; now eexists; eexists.
  - destruct members; now eexists; eexists.
Qed.

Lemma value_head_not_ws (c : char) :
  value_head c = true -> is_whitespace c = false.
Proof.
  unfold value_head. intros H. apply andb_true_iff in H as [H _].
  apply andb_true_iff in H as [H _]. now destruct (is_whitespace c).
Qed.

Lemma value_head_not_close (c : char) :
  value_head c = true -> is_char "]" c = false.
Proof.
  unfold value_head. intros H. apply andb_true_iff in H as [H _].
  apply andb_true_iff in H as [_ H]. now destruct (is_char "]" c).
Qed.

Lemma skip_whitespace_head (c : char) (s : str) :
  is_whitespace c = false -> skip_whitespace (c :: s) = c :: s.
Proof. intros H. cbn [skip_whitespace]. now rewrite H. Qed.

Lemma skip_whitespace_spaces (n : nat) (s : str) :
  skip_whitespace (repeat space n ++ s) = skip_whitespace s.
Proof. induction n as [|n IH]; [reflexivity | exact IH]. Qed.

Lemma skip_whitespace_indent (indent level : nat) (s : str) :
  skip_whitespace (newline_indent indent level ++ s) = skip_whitespace s.
Proof.
  unfold newline_indent. rewrite <- app_comm_cons.
  change (skip_whitespace (newline :: ?x)) with (skip_whitespace x).
  apply skip_whitespace_spaces.
Qed.

Lemma stops_indent (indent level : nat) (s : str) :
  stops (newline_indent indent level ++ s) = true.
Proof. reflexivity. Qed.


(** *** Scalars *)

Section Scalars.
Variable hook : str -> pyfloat.

Lemma scan_once_number_head (depth : nat) (c : char) (s1 : str) :
  is_digit c = true \/ c = 45%N ->
  scan_once hook (S depth) (c :: s1)
  = match scan_number hook (c :: s1) with
    | Some r => Some r
    | None => scan_once hook (S depth) (c :: s1)
    end.
Proof.
  intros H.
  assert (Hc : c = 45%N \/ c = 48%N \/ c = 49%N \/ c = 50%N \/ c = 51%N
               \/ c = 52%N \/ c = 53%N \/ c = 54%N \/ c = 55%N \/ c = 56%N
               \/ c = 57%N).
  { destruct H as [H| ->]; [apply digit_range in H; lia | now left]. }
  destruct (scan_number hook (c :: s1)) as [r|] eqn:E; [|reflexivity].
  repeat (destruct Hc as [->|Hc]); try subst c;
    cbn [scan_once]; (rewrite E || idtac); reflexivity.
Qed.

Lemma scan_once_int (depth : nat) (z : Z) (rest : str) :
  stops rest = true -> int_ok z = true ->
  scan_once hook (S depth) (str_of_int z ++ rest) = Some (JInt z, rest).
Proof.
  intros Hrest Hok.
  pose proof (scan_number_int hook z rest Hrest Hok) as Hn.
  assert (Hhead : exists c t, str_of_int z = c :: t
                              /\ (is_digit c = true \/ c = 45%N)).
  { unfold str_of_int. destruct z as [|p|p]; cbn [Z.to_int int_digits].
    - exists 48%N, []. now split; [|left].
    - destruct (to_uint_digits p) as [c [ds [E [Hc _]]]]. rewrite E.
      exists c, ds. now split; [|left].
    - eexists; eexists. split; [reflexivity | now right]. }
  destruct Hhead as [c [t [E Hc]]]. rewrite E in *. cbn [Datatypes.app] in *.
  rewrite scan_once_number_head by assumption. now rewrite Hn.
Qed.

Lemma scan_once_string (depth : nat) (s rest : str) :
  text_ok s = true ->
  scan_once hook (S depth) (encode_basestring_ascii s ++ rest)
  = Some (JStr s, rest).
Proof.
  intros Hs. unfold encode_basestring_ascii.
  cbn [Datatypes.app scan_once]. rewrite N.eqb_refl.
  rewrite <- app_assoc. cbn [Datatypes.app].
  rewrite scanstring_escaped; [reflexivity | assumption |].
  rewrite length_app. cbn [List.length].
  assert (H : List.length s <= List.length (flat_map escape_char s)).
  { clear. induction s as [|c s IH]; [reflexivity|].
    cbn [flat_map List.length]. rewrite length_app.
    assert (1 <= List.length (escape_char c)).
    { destruct (escape_char_cases c)
        as [[l [-> _]]|[[-> _]|[[-> _]|[-> _]]]]; cbn; lia. }
    lia. }
  lia.
Qed.

End Scalars.


(** *** Containers *)

Lemma join_cons (sep x y : str) (chunks : list str) :
  join sep (x :: y :: chunks) = x ++ sep ++ join sep (y :: chunks).
Proof. reflexivity. Qed.

Lemma join_cons_ne (sep x : str) (rest : list str) :
  rest <> [] -> join sep (x :: rest) = x ++ sep ++ join sep rest.
Proof. destruct rest; [contradiction | reflexivity]. Qed.

Section ContainerItems.
Variable scan : str -> option (json * str).
Variables indent level : nat.

Lemma join_head (sep : str) (chunks : list str) (c : char) (t : str)
    (more : list str) :
  chunks = (c :: t) :: more ->
  exists t', join sep chunks = c :: t'.
Proof.
  intros ->. cbn [join]. destruct more; eexists; reflexivity.
Qed.

(** The items of a [list], written and read, when each of them is. *)
Lemma array_values_join (items : list json) :
  forall (k : nat) (rest : str),
    Forall (reads_back scan indent level) items ->
    items <> [] -> List.length items <= k ->
    array_values scan k
      (join (lit "," ++ newline_indent indent (S level))
         (map (encode indent (S level)) items)
       ++ newline_indent indent level ++ 93%N :: rest)
    = Some (items, rest).
Proof.
  induction items as [|x items IH]; intros k rest Hall Hne Hk;
    [contradiction|].
  inversion Hall as [|x' items' [Hx _] Hitems]; subst.
  destruct k as [|k]; [inversion Hk|].
  cbn [map join].
  destruct items as [|y items].
  - cbn [map]. cbn [array_values].
    rewrite Hx by apply stops_indent.
    rewrite skip_whitespace_indent.
    cbn [Datatypes.app skip_whitespace].
    change (is_whitespace 93%N) with false. cbv iota.
    change (is_char "]" 93%N) with true. reflexivity.
  - set (tail := join _ (map (encode indent (S level)) (y :: items))) in *.
    cbn [map]. fold tail. rewrite <- !app_assoc.
    cbn [array_values]. change (lit ",") with [44%N].
    cbn [Datatypes.app]. rewrite Hx by reflexivity.
    rewrite skip_whitespace_head by reflexivity.
    change (is_char "]" 44%N) with false.
    change (is_char "," 44%N) with true. cbv iota.
    rewrite skip_whitespace_indent.
    inversion Hitems as [|y' items' [_ [c [t [Ey Hc]]]] _]; subst.
    destruct (join_head (lit "," ++ newline_indent indent (S level))
                (map (encode indent (S level)) (y :: items)) c t
                (map (encode indent (S level)) items)) as [t' Et'].
    { cbn [map]. now rewrite Ey. }
    fold tail in Et'. 
    assert (Hskip : forall z, skip_whitespace (tail ++ z) = tail ++ z).
    { intros z. rewrite Et'. cbn [Datatypes.app].
      apply skip_whitespace_head. now apply value_head_not_ws. }
    rewrite Hskip.
    unfold tail. rewrite IH;
      [reflexivity | assumption | discriminate | cbn [List.length] in *; lia].
Qed.

End ContainerItems.

Lemma length_escaped (s : str) :
  List.length s <= List.length (flat_map escape_char s).
Proof.
  induction s as [|c s IH]; [reflexivity|].
  cbn [flat_map List.length]. rewrite length_app.
  assert (1 <= List.length (escape_char c)).
  { destruct (escape_char_cases c)
      as [[l [-> _]]|[[-> _]|[[-> _]|[-> _]]]]; cbn; lia. }
  lia.
Qed.

Section ContainerMembers.
Variable scan : str -> option (json * str).
Variables indent level : nat.

(** The members of a [dict], written and read, when each value is. *)
Lemma object_pairs_join (members : list (str * json)) :
  forall (k : nat) (rest : str),
    Forall (fun kv => text_ok (fst kv) = true
                      /\ reads_back scan indent level (snd kv)) members ->
    members <> [] -> List.length members <= k ->
    object_pairs scan k
      (join (lit "," ++ newline_indent indent (S level))
         (map (fun kv => encode_basestring_ascii (fst kv) ++ lit ": "
                      ++ encode indent (S level) (snd kv))
            members)
       ++ newline_indent indent level ++ 125%N :: rest)
    = Some (members, rest).
Proof.
  induction members as [|[key value] members IH]; intros k rest Hall Hne Hk;
    [contradiction|].
  inversion Hall as [|kv ms [Hkey [Hval [c [t [Ev Hc]]]]] Hmembers]; subst.
  cbn [fst snd] in *.
  destruct k as [|k]; [inversion Hk|].
  assert (Hstep : forall tail,
             stops tail = true ->
             object_pairs scan (S k)
               (encode_basestring_ascii key ++ lit ": "
                ++ encode indent (S level) value ++ tail)
             = match skip_whitespace tail with
               | c :: s4 =>
                   if is_char "}" c then Some ([(key, value)], s4)
                   else if is_char "," c then
                     match object_pairs scan k (skip_whitespace s4) with
                     | Some (pairs, rest) =>
                         Some ((key, value) :: pairs, rest)
                     | None => None
                     end
                   else None
               | [] => None
               end).
  { intros tail Htail. unfold encode_basestring_ascii.
    change (lit ": ") with [58%N; 32%N].
    rewrite <- ?app_assoc. cbn [Datatypes.app object_pairs].
    rewrite N.eqb_refl. rewrite <- ?app_assoc. cbn [Datatypes.app].
    rewrite scanstring_escaped;
      [|assumption
       |rewrite length_app; cbn [List.length];
        pose proof (length_escaped key); lia].
    rewrite skip_whitespace_head by reflexivity.
    change (is_char ":" 58%N) with true. cbv iota.
    change (skip_whitespace (32%N :: ?x)) with (skip_whitespace x).
    rewrite Ev. cbn [Datatypes.app].
    rewrite skip_whitespace_head by now apply value_head_not_ws.
    change (c :: t ++ tail) with ((c :: t) ++ tail). rewrite <- Ev.
    now rewrite Hval. }
  destruct members as [|kv' members].
  - cbn [map join fst snd]. rewrite <- !app_assoc.
    rewrite Hstep by apply stops_indent.
    rewrite skip_whitespace_indent.
    rewrite skip_whitespace_head by reflexivity.
    change (is_char "}" 125%N) with true. reflexivity.
  - rewrite map_cons, join_cons_ne by discriminate.
    cbv beta. cbn [fst snd].
    match goal with
    | |- context [join ?s (map ?f (kv' :: members))] =>
        set (tail := join s (map f (kv' :: members))) in *
    end.
    rewrite <- !app_assoc. change (lit ",") with [44%N].
    cbn [Datatypes.app].
    rewrite Hstep by reflexivity.
    rewrite skip_whitespace_head by reflexivity.
    change (is_char "}" 44%N) with false.
    change (is_char "," 44%N) with true. cbv iota.
    rewrite skip_whitespace_indent.
    assert (Hskip : forall z, skip_whitespace (tail ++ z) = tail ++ z).
    { intros z. unfold tail. cbn [map join].
      destruct (map _ members); cbv beta; unfold encode_basestring_ascii;
        cbn [Datatypes.app]; now apply skip_whitespace_head. }
    rewrite Hskip. unfold tail.
    rewrite IH;
      [reflexivity | assumption | discriminate | cbn [List.length] in *; lia].
Qed.

End ContainerMembers.

Lemma dict_of_pairs_acc (pairs acc : list (str * json)) :
  text_ok_keys pairs = true ->
  Forall (fun kv => dict_has acc (fst kv) = false) pairs ->
  fold_left (fun d kv => dict_set d (fst kv) (snd kv)) pairs acc
  = acc ++ pairs.
Proof.
  revert acc. induction pairs as [|[k v] pairs IH]; intros acc Hok Hacc.
  - now rewrite List.app_nil_r.
  - cbn [text_ok_keys] in Hok.
    apply andb_true_iff in Hok as [Hok Hrest].
    apply andb_true_iff in Hok as [_ Hk].
    apply negb_true_iff in Hk. 
    inversion Hacc as [|kv ps Hkacc Hpairs]; subst. cbn [fst snd] in *.
    cbn [fold_left fst snd]. rewrite dict_set_fresh by assumption.
    rewrite IH; [now rewrite <- app_assoc | assumption |].
    apply Forall_forall. intros [k' v'] Hin. cbn [fst].
    rewrite Forall_forall in Hpairs. specialize (Hpairs _ Hin).
    cbn [fst] in Hpairs. unfold dict_has in *. rewrite existsb_app.
    rewrite Hpairs. cbn [existsb fst orb].
    rewrite orb_false_r. apply str_eqb_neq. intros ->.
    assert (H : existsb (fun kv => str_eqb k (fst kv)) pairs = true).
    { apply existsb_exists. exists (k, v'). split; [assumption|].
      apply str_eqb_refl. }
    congruence.
Qed.

(** [dict(pairs)] is the pairs themselves when the keys are distinct. *)
Lemma dict_of_pairs_distinct (members : list (str * json)) :
  text_ok_keys members = true -> dict_of_pairs members = members.
Proof.
  intros H. unfold dict_of_pairs.
  rewrite dict_of_pairs_acc; [reflexivity | assumption|].
  apply Forall_forall. now intros kv _.
Qed.

Lemma length_join_ge (sep : str) (chunks : list str) (c : str) :
  In c chunks -> List.length c <= List.length (join sep chunks).
Proof.
  induction chunks as [|x chunks IH]; [contradiction|].
  destruct chunks as [|y chunks].
  - intros [->|[]]. reflexivity.
  - rewrite join_cons, !length_app. intros [->|Hin]; [lia|].
    specialize (IH Hin). lia.
Qed.

Lemma length_join_count (sep : str) (chunks : list str) :
  Forall (fun c => c <> []) chunks ->
  List.length chunks <= List.length (join sep chunks).
Proof.
  induction 1 as [|x chunks Hx _ IH]; [reflexivity|].
  assert (1 <= List.length x) by (destruct x; [contradiction | cbn; lia]).
  destruct chunks as [|y chunks].
  - cbn [join List.length]. lia.
  - rewrite join_cons, !length_app.
    change (List.length (x :: y :: chunks))
      with (S (List.length (y :: chunks))).
    cbv delta [str char] in *. lia.
Qed.

Section Containers.
Variable scan : str -> option (json * str).
Variables indent level : nat.

Lemma JSONArray_items (items : list json) (rest : str) :
  Forall (reads_back scan indent level) items -> items <> [] ->
  JSONArray scan
    (newline_indent indent (S level)
     ++ join (lit "," ++ newline_indent indent (S level))
          (map (encode indent (S level)) items)
     ++ newline_indent indent level ++ 93%N :: rest)
  = Some (JList items, rest).
Proof.
  intros Hall Hne. unfold JSONArray.
  rewrite skip_whitespace_indent.
  destruct items as [|x items]; [contradiction|].
  pose proof Hall as Hall'.
  inversion Hall' as [|x' items' [_ [c [t [Ex Hc]]]] _]; subst.
  destruct (join_head (lit "," ++ newline_indent indent (S level))
              (map (encode indent (S level)) (x :: items))
              c t (map (encode indent (S level)) items)) as [t' Et'].
  { cbn [map]. now rewrite Ex. }
  set (J := join _ _) in *.
  assert (HJ : forall z, J ++ z = c :: t' ++ z) by (intros z; now rewrite Et').
  rewrite HJ. rewrite skip_whitespace_head by now apply value_head_not_ws.
  rewrite (value_head_not_close c Hc). rewrite <- HJ.
  unfold J. rewrite array_values_join; [reflexivity | assumption | assumption|].
  rewrite !length_app.
  assert (List.length (x :: items)
          <= List.length (join (lit "," ++ newline_indent indent (S level))
                            (map (encode indent (S level)) (x :: items)))).
  { rewrite <- (length_map (encode indent (S level))).
    apply length_join_count. apply Forall_map.
    revert Hall. apply Forall_impl. intros y [_ [c' [t'' [-> _]]]].
    discriminate. }
  lia.
Qed.

Lemma JSONObject_members (members : list (str * json)) (rest : str) :
  Forall (fun kv => text_ok (fst kv) = true
                    /\ reads_back scan indent level (snd kv)) members ->
  members <> [] -> text_ok_keys members = true ->
  JSONObject scan
    (newline_indent indent (S level)
     ++ join (lit "," ++ newline_indent indent (S level))
          (map (fun kv => encode_basestring_ascii (fst kv) ++ lit ": "
                          ++ encode indent (S level) (snd kv)) members)
     ++ newline_indent indent level ++ 125%N :: rest)
  = Some (JDict members, rest).
Proof.
  intros Hall Hne Hkeys. unfold JSONObject.
  rewrite skip_whitespace_indent.
  set (J := join _ _).
  assert (HJ : exists t', J = quote :: t').
  { unfold J. destruct members as [|kv members]; [contradiction|].
    cbn [map join]. destruct (map _ members);
      unfold encode_basestring_ascii; cbn [Datatypes.app]; now eexists. }
  destruct HJ as [t' Et'].
  assert (HJ : forall z, J ++ z = quote :: t' ++ z)
    by (intros z; now rewrite Et').
  rewrite HJ. rewrite skip_whitespace_head by reflexivity.
  change (is_char "}" quote) with false. cbv iota. rewrite <- HJ.
  unfold J. rewrite object_pairs_join; [|assumption|assumption|].
  - now rewrite dict_of_pairs_distinct.
  - rewrite !length_app.
    match goal with
    | |- _ <= _ + (List.length (join ?s (map ?f members)) + _) =>
        assert (List.length (map f members)
                <= List.length (join s (map f members)))
    end.
    { apply length_join_count. apply Forall_map, Forall_forall.
      intros kv _. unfold encode_basestring_ascii. discriminate. }
    rewrite length_map in *. lia.
Qed.

End Containers.

Section ReadBack.
Variable hook : str -> pyfloat.
Variable indent : nat.

Lemma text_ok_keys_forall (members : list (str * json)) :
  text_ok_keys members = true ->
  Forall (fun kv => text_ok (fst kv) = true) members.
Proof.
  induction members as [|[k v] members IH]; [constructor|].
  cbn [text_ok_keys]. intros H.
  apply andb_true_iff in H as [H Hrest].
  apply andb_true_iff in H as [Hk _].
  constructor; [exact Hk | now apply IH].
Qed.

Lemma startswith_nil (hay : str) : startswith hay [] = true.
Proof. now destruct hay. Qed.

Lemma scan_literal_word (word rest : str) (value : json) :
  scan_literal word value (word ++ rest) = Some (value, rest).
Proof.
  unfold scan_literal.
  assert (H : startswith (word ++ rest) word = true).
  { induction word as [|c word IH]; [apply startswith_nil|].
    cbn [Datatypes.app startswith]. now rewrite N.eqb_refl. }
  rewrite H. f_equal. f_equal.
  induction word as [|c word IH]; [reflexivity|].
  cbn [Datatypes.app List.length skipn]. apply IH.
  clear -H. cbn [Datatypes.app startswith] in H.
  now rewrite N.eqb_refl in H.
Qed.

(** A readable document, written at any level and read with enough depth,
    whatever stops it. *)
Lemma scan_once_encode (o : json) :
  forall (level depth : nat) (rest : str),
    readable o = true ->
    List.length (encode indent level o) < depth ->
    stops rest = true ->
    scan_once hook depth (encode indent level o ++ rest) = Some (o, rest).
Proof.
  induction o as [| b | n | f | s | items IH | members IH] using json_ind;
    intros level depth rest Hok Hdepth Hrest;
    (destruct depth as [|depth]; [inversion Hdepth|]).
  - cbn. rewrite ?startswith_nil. exact (scan_literal_word _ rest _).
  - destruct b; cbn; rewrite ?startswith_nil;
      exact (scan_literal_word _ rest _).
  - now apply scan_once_int.
  - destruct f as [|[|]|d]; try discriminate; cbn;
      rewrite ?startswith_nil; exact (scan_literal_word _ rest _).
  - now apply scan_once_string.
  - destruct items as [|x xs]; [reflexivity|].
    rewrite encode_list in *. rewrite <- !app_assoc.
    cbn [Datatypes.app scan_once].
    change (N.eqb 91%N quote) with false. change (is_char "{" 91%N) with false.
    change (is_char "[" 91%N) with true. cbv iota.
    apply JSONArray_items; [|discriminate].
    cbn [readable] in Hok. rewrite forallb_forall in Hok.
    rewrite Forall_forall in IH. apply Forall_forall. intros y Hy. split.
    + intros r Hr. apply IH; [assumption | now apply Hok | | assumption].
      pose proof (length_join_ge (lit "," ++ newline_indent indent (S level))
                    (map (encode indent (S level)) (x :: xs))
                    (encode indent (S level) y)
                    (in_map _ _ _ Hy)) as Hle.
      rewrite !length_app in Hdepth. cbn [List.length] in Hdepth.
      cbv delta [str char] in *. lia.
    + apply encode_value_head. now apply Hok.
  - destruct members as [|kv members]; [reflexivity|].
    rewrite encode_dict in *. rewrite <- !app_assoc.
    cbn [Datatypes.app scan_once].
    change (N.eqb 123%N quote) with false.
    change (is_char "{" 123%N) with true. cbv iota.
    cbn [readable] in Hok. apply andb_true_iff in Hok as [Hkeys Hvals].
    apply JSONObject_members; [|discriminate|assumption].
    pose proof (text_ok_keys_forall _ Hkeys) as Hk.
    rewrite forallb_forall in Hvals.
    rewrite Forall_forall in IH, Hk. apply Forall_forall.
    intros y Hy. split; [now apply Hk|]. split.
    + intros r Hr. apply IH; [assumption | now apply Hvals | | assumption].
      pose proof (length_join_ge (lit "," ++ newline_indent indent (S level))
                    (map (fun kv => encode_basestring_ascii (fst kv)
                                    ++ lit ": "
                                    ++ encode indent (S level) (snd kv))
                       (kv :: members))
                    _ (in_map _ _ _ Hy)) as Hle.
      cbv beta in Hle. rewrite !length_app in Hle.
      rewrite !length_app in Hdepth. cbn [List.length] in Hdepth.
      cbv delta [str char] in *. lia.
    + apply encode_value_head. now apply Hvals.
Qed.

(** The text written for a document does not start with a byte order
    mark. *)
Lemma dumps_no_bom (o : json) :
  readable o = true -> startswith (json_dumps indent o) [65279%N] = false.
Proof.
  intros Hok. unfold json_dumps.
  destruct (encode_value_head indent 0 o Hok) as [c [t [E Hc]]].
  rewrite E. cbn [startswith].
  unfold value_head in Hc. apply andb_true_iff in Hc as [_ Hc].
  apply N.ltb_lt in Hc.
  replace (N.eqb 65279 c) with false; [reflexivity|].
  symmetry. apply N.eqb_neq. lia.
Qed.

(** The scanner reads the whole of it, and reads the document. *)
Lemma scan_once_dumps (o : json) :
  readable o = true ->
  scan_once hook (S (List.length (json_dumps indent o)))
    (skip_whitespace (json_dumps indent o)) = Some (o, []).
Proof.
  intros Hok. unfold json_dumps.
  destruct (encode_value_head indent 0 o Hok) as [c [t [E Hc]]].
  assert (Hskip : skip_whitespace (encode indent 0 o) = encode indent 0 o).
  { rewrite E. apply skip_whitespace_head. now apply value_head_not_ws. }
  rewrite Hskip.
  rewrite <- (List.app_nil_r (encode indent 0 o)) at 2.
  apply scan_once_encode; [assumption | | reflexivity].
  apply Nat.lt_succ_diag_r.
Qed.

(** X18 (read back).  Whatever the indent and the conversion of fractional
    literals, decoding the text written for a document gives the document
    back, provided it holds no finite [float], its [int]s are within the
    digit limit, its strings and keys are readable texts and the keys of
    each [dict] are distinct. *)
Theorem loads_dumps (o : json) :
  readable o = true -> json_loads hook (json_dumps indent o) = Some o.
Proof.
  intros Hok. unfold json_loads.
  rewrite (dumps_no_bom o Hok), (scan_once_dumps o Hok).
  reflexivity.
Qed.

End ReadBack.

Lemma loads_dumps_witness :
  readable (collection two_records_done) = true
  /\ json_loads no_fraction (json_dumps 4 (collection two_records_done))
     = Some (collection two_records_done).
Proof.
  assert (H : readable (collection two_records_done) = true)
    by (vm_compute; reflexivity).
  split; [exact H | exact (loads_dumps no_fraction 4 _ H)].
Defined.

(** The digit limit of the decoder: a literal of 4300 digits is read, one
    of 4301 is not. *)
Example int_digit_limit :
  reference_load (repeat 49%N 4300) <> None
  /\ reference_load (repeat 49%N 4301) = None.
Proof. vm_compute. split; [discriminate | reflexivity]. Qed.

(** Why the strings must be readable texts: a high surrogate followed by a
    low one is written as two escapes, which are read as one character. *)
Example surrogates_read_as_one :
  json_dumps 4 (JStr surrogates) = text "'\ud83d\ude00'"
  /\ reference_load (json_dumps 4 (JStr surrogates)) = Some (JStr [128512%N]).
Proof. split; vm_compute; reflexivity. Qed.

(* ------------------------------------------------------------------------- *)
(** ** The script on its own output *)

Lemma dict_has_app (d : dict) (k k' : str) (v : json) :
  dict_has (d ++ [(k, v)]) k' = dict_has d k' || str_eqb k' k.
Proof.
  unfold dict_has. rewrite existsb_app. cbn [existsb fst].
  now rewrite orb_false_r.
Qed.

Lemma str_eqb_sym (a b : str) : str_eqb a b = str_eqb b a.
Proof.
  destruct (str_eqb b a) eqn:E.
  - apply str_eqb_eq in E as ->. apply str_eqb_refl.
  - apply str_eqb_neq. apply str_eqb_neq in E. congruence.
Qed.

Lemma text_ok_keys_app_fresh (d : dict) (k : str) (v : json) :
  text_ok_keys d = true -> dict_has d k = false -> text_ok k = true ->
  text_ok_keys (d ++ [(k, v)]) = true.
Proof.
  intros Hd Hk Hok. induction d as [|[k0 v0] d IH].
  - cbn [Datatypes.app text_ok_keys dict_has existsb negb]. now rewrite Hok.
  - cbn [Datatypes.app text_ok_keys] in *.
    apply andb_true_iff in Hd as [Hd Hrest].
    apply andb_true_iff in Hd as [Hk0 Hfresh].
    cbn [dict_has existsb fst] in Hk. apply orb_false_iff in Hk as [Hne Hk].
    rewrite Hk0, dict_has_app, (str_eqb_sym k0 k), Hne, orb_false_r, Hfresh.
    cbn [andb]. now apply IH.
Qed.

(** The loop body keeps a document readable: the key and the value it adds
    are plain words, and it adds the key only where it is missing. *)
Lemma readable_loop_body (x y : json) :
  readable x = true -> loop_body x = ret y -> readable y = true.
Proof.
  intros Hx Hy. destruct (is_dict x) eqn:D.
  - destruct x as [| b | n | f | s | items | r]; try discriminate.
    apply loop_body_dict_inv in Hy as ->.
    unfold set_default. destruct (dict_has r problemType) eqn:E;
      [assumption|].
    cbn [readable] in *. apply andb_true_iff in Hx as [Hkeys Hvals].
    rewrite text_ok_keys_app_fresh, forallb_app, Hvals;
      [reflexivity | assumption | assumption | reflexivity].
  - now rewrite (loop_body_not_dict _ _ D Hy).
Qed.

Lemma readable_transform (problems problems' : json) :
  readable problems = true -> transform problems = ret problems' ->
  readable problems' = true.
Proof.
  destruct problems as [| b | n | f | s | items | members];
    cbn [transform py_iter bind ret raise]; try discriminate.
  - intros H. destruct (for_each _ _); [discriminate | now intros [= <-]].
  - intros H. destruct (for_each loop_body items) as [e|ys] eqn:E;
      [discriminate|].
    intros [= <-]. cbn [readable] in *.
    apply for_each_Forall2 in E. rewrite forallb_forall in *.
    induction E as [|x y xs ys Hxy _ IH]; [intros ? []|].
    intros z [<-|Hz].
    + apply (readable_loop_body x); [apply H; now left | assumption].
    + apply IH; [|assumption]. intros u Hu. apply H. now right.
  - intros H. destruct (for_each _ _); [discriminate | now intros [= <-]].
Qed.

Section Rerun.

Variable hook : str -> pyfloat.

(** X19 (the script on its own output).  With the decoder of the [json]
    module, whatever the conversion of fractional literals: when the
    document loaded is readable, the loop gets through it and the file can
    be written, the run completes, a second run completes too and leaves
    the text of the file as the first one wrote it, and both print the
    same line. *)
Theorem written_file_runs_again (w : world) (content : str)
    (problems problems' : json) :
  file w = Some content ->
  json_loads hook content = Some problems ->
  readable problems = true ->
  transform problems = ret problems' ->
  writable w = true ->
  exists w1 w2 line,
    script (json_loads hook) w = (ret tt, w1)
    /\ script (json_loads hook) w1 = (ret tt, w2)
    /\ file w1 = Some (json_dumps 4 problems')
    /\ file w2 = file w1
    /\ stdout w1 = stdout w ++ line
    /\ stdout w2 = stdout w1 ++ line.
Proof.
  intros Hf Hl Hok Ht Hw.
  destruct (transform_len _ _ Ht) as [n [Hn _]].
  pose proof (script_completes (json_loads hook) w content _ _ n
                Hf Hl Ht Hn Hw) as H1.
  eexists. eexists. exists (report n ++ [newline]).
  split; [exact H1|]. split.
  - apply (script_completes (json_loads hook) _ (json_dumps 4 problems')
             problems' problems' n);
      [reflexivity
      | pose proof (readable_transform _ _ Hok Ht) as Hok';
        unfold json_loads;
        now rewrite (dumps_no_bom 4 _ Hok'), (scan_once_dumps hook 4 _ Hok')
      | now apply transform_twice with problems
      | assumption | reflexivity].
  - now repeat split.
Qed.

End Rerun.

Lemma written_file_runs_again_witness :
  file (world_later scenario_1) = Some scenario_1
  /\ json_loads no_fraction scenario_1 = Some (collection two_records)
  /\ readable (collection two_records) = true
  /\ transform (collection two_records) = ret (collection two_records_done)
  /\ writable (world_later scenario_1) = true
  /\ exists w1 w2 line,
       script (json_loads no_fraction) (world_later scenario_1) = (ret tt, w1)
       /\ script (json_loads no_fraction) w1 = (ret tt, w2)
       /\ file w1 = Some (json_dumps 4 (collection two_records_done))
       /\ file w2 = file w1
       /\ stdout w1 = stdout (world_later scenario_1) ++ line
       /\ stdout w2 = stdout w1 ++ line.
Proof.
  split; [reflexivity|]. split; [vm_compute; reflexivity|].
  split; [vm_compute; reflexivity|].
  split; [reflexivity|]. split; [reflexivity|].
  apply (written_file_runs_again no_fraction (world_later scenario_1)
           scenario_1 (collection two_records)
           (collection two_records_done));
    [reflexivity | vm_compute; reflexivity | vm_compute; reflexivity
    | reflexivity | reflexivity].
Defined.

(* ------------------------------------------------------------------------- *)
(** ** What the decoder never returns *)

Lemma dict_has_dict_set (d : dict) (k k' : str) (v : json) :
  dict_has (dict_set d k v) k' = dict_has d k' || str_eqb k' k.
Proof.
  induction d as [|[k0 v0] d IH]; cbn [dict_set dict_has existsb fst].
  - apply orb_comm.
  - destruct (str_eqb k k0) eqn:E; cbn [dict_has existsb fst].
    + apply str_eqb_eq in E as ->.
      destruct (str_eqb k' k0); [reflexivity | now rewrite orb_false_r].
    + fold (dict_has (dict_set d k v) k'). rewrite IH.
      fold (dict_has d k'). now rewrite orb_assoc.
Qed.

(** [d[k] = v] never makes a key come twice. *)
Lemma no_repeat_dict_set (d : dict) (k : str) (v : json) :
  no_repeat d = true -> no_repeat (dict_set d k v) = true.
Proof.
  induction d as [|[k0 v0] d IH]; [reflexivity|].
  cbn [no_repeat dict_set]. intros H.
  apply andb_true_iff in H as [Hfresh Hrest].
  destruct (str_eqb k k0) eqn:E; cbn [no_repeat].
  - now rewrite Hfresh, Hrest.
  - rewrite dict_has_dict_set, (str_eqb_sym k0 k), E, orb_false_r, Hfresh.
    now apply IH.
Qed.

Lemma well_keyed_dict_set (d : dict) (k : str) (v : json) :
  forallb (fun kv => well_keyed (snd kv)) d = true ->
  well_keyed v = true ->
  forallb (fun kv => well_keyed (snd kv)) (dict_set d k v) = true.
Proof.
  intros Hd Hv. induction d as [|[k0 v0] d IH].
  - cbn. now rewrite Hv.
  - cbn [forallb snd dict_set] in *.
    apply andb_true_iff in Hd as [H0 Hd].
    destruct (str_eqb k k0); cbn [forallb snd].
    + now rewrite Hv, Hd.
    + now rewrite H0, IH.
Qed.

Lemma well_keyed_dict_of_pairs (pairs : list (str * json)) :
  forallb (fun kv => well_keyed (snd kv)) pairs = true ->
  well_keyed (JDict (dict_of_pairs pairs)) = true.
Proof.
  unfold dict_of_pairs.
  assert (H : forall acc,
             well_keyed (JDict acc) = true ->
             forallb (fun kv => well_keyed (snd kv)) pairs = true ->
             well_keyed
               (JDict (fold_left (fun d kv => dict_set d (fst kv) (snd kv))
                         pairs acc)) = true).
  { induction pairs as [|[k v] pairs IH]; intros acc Hacc Hp;
      [exact Hacc|].
    cbn [fold_left fst snd]. cbn [forallb snd] in Hp.
    apply andb_true_iff in Hp as [Hv Hp].
    apply IH; [|exact Hp].
    cbn [well_keyed] in *. apply andb_true_iff in Hacc as [Ha Hb].
    now rewrite no_repeat_dict_set, well_keyed_dict_set. }
  now apply H.
Qed.

Section WellKeyed.

Variable hook : str -> pyfloat.

Section Items.

Variable scan : str -> option (json * str).
Hypothesis scan_well_keyed :
  forall s v r, scan s = Some (v, r) -> well_keyed v = true.

Lemma array_values_well_keyed (k : nat) :
  forall s values r,
    array_values scan k s = Some (values, r) ->
    forallb well_keyed values = true.
Proof.
  induction k as [|k IH]; intros s values r; [discriminate|].
  cbn [array_values].
  destruct (scan s) as [[v s1]|] eqn:E; [|discriminate].
  destruct (skip_whitespace s1) as [|c s2]; [discriminate|].
  destruct (is_char "]" c).
  - intros [= <- <-]. cbn [forallb].
    now rewrite (scan_well_keyed _ _ _ E).
  - destruct (is_char "," c); [|discriminate].
    destruct (array_values scan k (skip_whitespace s2)) as [[vs r']|] eqn:A;
      [|discriminate].
    intros [= <- <-]. cbn [forallb].
    now rewrite (scan_well_keyed _ _ _ E), (IH _ _ _ A).
Qed.

Lemma object_pairs_well_keyed (k : nat) :
  forall s pairs r,
    object_pairs scan k s = Some (pairs, r) ->
    forallb (fun kv => well_keyed (snd kv)) pairs = true.
Proof.
  induction k as [|k IH]; intros s pairs r; [discriminate|].
  cbn [object_pairs].
  destruct s as [|q s0]; [discriminate|].
  destruct (N.eqb q quote); [|discriminate].
  destruct (scanstring (List.length s0) s0) as [[key s1]|]; [|discriminate].
  destruct (skip_whitespace s1) as [|colon s2]; [discriminate|].
  destruct (is_char ":" colon); [|discriminate].
  destruct (scan (skip_whitespace s2)) as [[v s3]|] eqn:E; [|discriminate].
  destruct (skip_whitespace s3) as [|c s4]; [discriminate|].
  destruct (is_char "}" c).
  - intros [= <- <-]. cbn [forallb snd].
    now rewrite (scan_well_keyed _ _ _ E).
  - destruct (is_char "," c); [|discriminate].
    destruct (object_pairs scan k (skip_whitespace s4)) as [[ps r']|] eqn:A;
      [|discriminate].
    intros [= <- <-]. cbn [forallb snd].
    now rewrite (scan_well_keyed _ _ _ E), (IH _ _ _ A).
Qed.

End Items.

Lemma scan_literal_value (word : str) (value v : json) (s r : str) :
  scan_literal word value s = Some (v, r) -> v = value.
Proof.
  unfold scan_literal. destruct (startswith s word); [|discriminate].
  now intros [= <- _].
Qed.

Lemma scan_number_well_keyed (s r : str) (v : json) :
  scan_number hook s = Some (v, r) -> well_keyed v = true.
Proof.
  unfold scan_number.
  destruct (match_integer s) as [[integer s1]|]; [|discriminate].
  destruct (match_fraction s1) as [frac s2].
  destruct (match_exponent s2) as [exp s3].
  destruct frac, exp; try now intros [= <- _].
  destruct (Nat.leb _ _); [now intros [= <- _] | discriminate].
Qed.

Lemma scan_once_well_keyed (depth : nat) :
  forall s v r, scan_once hook depth s = Some (v, r) -> well_keyed v = true.
Proof.
  induction depth as [|depth IH]; intros s v r; [discriminate|].
  cbn [scan_once].
  destruct s as [|c s1]; [discriminate|].
  destruct (N.eqb c quote).
  { destruct (scanstring _ s1) as [[t rest]|]; [|discriminate].
    now intros [= <- _]. }
  destruct (is_char "{" c).
  { unfold JSONObject.
    destruct (skip_whitespace s1) as [|c1 s2]; [discriminate|].
    destruct (is_char "}" c1); [now intros [= <- _]|].
    destruct (object_pairs _ _ _) as [[pairs rest]|] eqn:E; [|discriminate].
    intros [= <- _]. apply well_keyed_dict_of_pairs.
    exact (object_pairs_well_keyed _ IH _ _ _ _ E). }
  destruct (is_char "[" c).
  { unfold JSONArray.
    destruct (skip_whitespace s1) as [|c1 s2]; [discriminate|].
    destruct (is_char "]" c1); [now intros [= <- _]|].
    destruct (array_values _ _ _) as [[values rest]|] eqn:E; [|discriminate].
    intros [= <- _]. cbn [well_keyed].
    exact (array_values_well_keyed _ IH _ _ _ _ E). }
  repeat match goal with
         | |- (if ?b then _ else _) = _ -> _ =>
             destruct b;
             [intros H; now rewrite (scan_literal_value _ _ _ _ _ H)|]
         end.
  destruct (scan_number hook (c :: s1)) as [[v' r']|] eqn:E.
  - intros [= <- _]. exact (scan_number_well_keyed _ _ _ E).
  - repeat match goal with
           | |- (if ?b then _ else _) = _ -> _ =>
               destruct b;
               [intros H; now rewrite (scan_literal_value _ _ _ _ _ H)|]
           end.
    intros H. now rewrite (scan_literal_value _ _ _ _ _ H).
Qed.

(** X20 (no key twice).  Whatever the text and the conversion of fractional
    literals, no [dict] of a decoded document, at any depth, has a key
    twice. *)
Theorem loaded_keys_distinct (s : str) (o : json) :
  json_loads hook s = Some o -> well_keyed o = true.
Proof.
  unfold json_loads. destruct (startswith s [65279%N]); [discriminate|].
  destruct (scan_once _ _ _) as [[v rest]|] eqn:E; [|discriminate].
  destruct (skip_whitespace rest); [|discriminate].
  intros [= <-]. exact (scan_once_well_keyed _ _ _ _ E).
Qed.

End WellKeyed.

Lemma loaded_keys_distinct_witness :
  json_loads no_fraction repeated_key
  = Some (JList [JDict [(lit "a", JInt 2); (lit "b", JDict [])]])
  /\ well_keyed (JList [JDict [(lit "a", JInt 2); (lit "b", JDict [])]])
     = true.
Proof.
  assert (H : json_loads no_fraction repeated_key
              = Some (JList [JDict [(lit "a", JInt 2); (lit "b", JDict [])]]))
    by (vm_compute; reflexivity).
  split; [exact H | exact (loaded_keys_distinct no_fraction _ _ H)].
Defined.
